(** * Line-delimited event streams of the KES client (log.go)

    A shallow embedding of [ErrorStream] and [AuditStream] together with
    the parts of the Go standard library they are written against
    ([io.Reader], [io.Closer], [bufio.Scanner] with its default line
    splitter, and the signature of [json.Unmarshal]), and the properties
    of the iteration protocol they implement. *)

From Stdlib.Strings Require Import String Byte.
From Stdlib Require Import List Bool Arith Lia ZArith.
Import ListNotations.

Set Implicit Arguments.

(** ** Bytes and errors *)

Definition bytes := list byte.

Definition LF : byte := x0a.
Definition CR : byte := x0d.

(** Go's [error] interface values that matter to the streams.  A nil
    error is [None : option error]. *)
Inductive error : Type :=
| io_EOF
| bufio_ErrTooLong
| errorString (msg : string).

Definition isNil {A} (e : option A) : bool :=
  match e with None => true | Some _ => false end.

(** ** package io *)

Module io.

(** What a well-behaved reader still has to deliver: the bytes its
    successive [Read] calls return, then the error it reports once they
    are used up ([io_EOF] for a clean end of data). *)
Record Source := mkSource { pending : bytes; fin : error }.

(** [Close] of the object behind the reader: it may change what the
    object delivers afterwards and returns an error or nil. *)
Definition Closer := Source -> Source * option error.

(** An [io.Reader] interface value as the constructors receive it; the
    type assertion [r.(io.Closer)] succeeds exactly when [asCloser] is
    [Some]. *)
Record Reader := mkReader { source : Source; asCloser : option Closer }.

End io.

(** ** package bufio: Scanner with the ScanLines split function *)

Module bufio.

Definition MaxScanTokenSize : nat := 64 * 1024.
Global Opaque MaxScanTokenSize.

(** [bytes.IndexByte]. *)
Fixpoint IndexByte (b : bytes) (c : byte) : option nat :=
  match b with
  | [] => None
  | x :: b' => if Byte.eqb x c then Some 0 else option_map S (IndexByte b' c)
  end.

(** [dropCR] drops a terminal carriage return from the data. *)
Definition dropCR (data : bytes) : bytes :=
  if (0 <? length data) && Byte.eqb (last data x00) CR
  then removelast data else data.

(** [ScanLines]: the advance and the token (None for a nil token: more
    data is requested, or nothing is left at end of data). *)
Definition ScanLines (data : bytes) (atEOF : bool) : nat * option bytes :=
  if atEOF && (length data =? 0) then (0, None)
  else match IndexByte data LF with
       | Some i => (i + 1, Some (dropCR (firstn i data)))
       | None => if atEOF then (length data, Some (dropCR data)) else (0, None)
       end.

(** The scanner over a well-behaved reader.  [src] holds the bytes no
    token has consumed yet, whether already buffered or still to be
    read, and the reader's final error; [token] is the last token and
    [err] the scanner's own sticky error. *)
Record Scanner := mkScanner {
  src : io.Source;
  token : bytes;
  err : option error
}.

Definition NewScanner (r : io.Source) : Scanner :=
  {| src := r; token := []; err := None |}.

(** A pass of the scan loop once the scanner holds an error: the split
    function sees everything that is left with atEOF set. *)
Definition scanAtEOF (s : Scanner) (e : option error) : bool * Scanner :=
  let data := io.pending (src s) in
  match ScanLines data true with
  | (adv, Some tok) =>
      (true, {| src := io.mkSource (skipn adv data) (io.fin (src s));
                token := tok; err := e |})
  | (_, None) =>
      (false, {| src := io.mkSource [] (io.fin (src s));
                 token := []; err := e |})
  end.

(** [Scan].  While no error is recorded the buffer is filled until the
    split function finds a line; it never holds more than
    [MaxScanTokenSize] bytes, and a full buffer without a line is
    [bufio_ErrTooLong] (nothing is read after that, so only the
    buffered bytes remain).  When the reader runs dry first, its final
    error is recorded and the rest is split with atEOF set. *)
Definition Scan (s : Scanner) : bool * Scanner :=
  match err s with
  | None =>
      let data := io.pending (src s) in
      let buf := firstn MaxScanTokenSize data in
      match ScanLines buf false with
      | (adv, Some tok) =>
          (true, {| src := io.mkSource (skipn adv data) (io.fin (src s));
                    token := tok; err := None |})
      | (_, None) =>
          if MaxScanTokenSize <=? length buf
          then (false, {| src := io.mkSource buf (io.fin (src s));
                          token := []; err := Some bufio_ErrTooLong |})
          else scanAtEOF s (Some (io.fin (src s)))
      end
  | Some e => scanAtEOF s (Some e)
  end.

Definition Bytes (s : Scanner) : bytes := token s.

(** [Err] returns the first non-EOF error met by the scanner. *)
Definition Err (s : Scanner) : option error :=
  match err s with
  | Some io_EOF => None
  | e => e
  end.

End bufio.

(** ** package encoding/json *)

Module json.

(** [json.Unmarshal(data, &v)]: the value left in [v] and the error.
    The decoder itself is a parameter of the development. *)
Definition Unmarshaler (E : Type) := bytes -> E -> E * option error.

End json.

(** ** package time *)

Module time.

(** [time.Time] as nanoseconds since the epoch and [time.Duration] as
    its int64 count of nanoseconds; no stream operation looks inside. *)
Definition Time := Z.
Definition Duration := Z.

End time.

(** ** Event records *)

Record ErrorEvent := mkErrorEvent { Message : string }.

Record AuditEventRequest := mkAuditEventRequest {
  Path : string;
  Identity : string
}.

(** The Go field of the duration is [Time] as well; projections share one
    name space here, so it is [ResponseTime]. *)
Record AuditEventResponse := mkAuditEventResponse {
  StatusCode : Z;
  ResponseTime : time.Duration
}.

Record AuditEvent := mkAuditEvent {
  Time : time.Time;
  Request : AuditEventRequest;
  Response : AuditEventResponse
}.

(** The zero values the constructors leave in the [event] field. *)
Definition zeroErrorEvent : ErrorEvent := {| Message := EmptyString |}.

Definition zeroAuditEvent : AuditEvent :=
  {| Time := 0%Z;
     Request := {| Path := EmptyString; Identity := EmptyString |};
     Response := {| StatusCode := 0%Z; ResponseTime := 0%Z |} |}.

(** ** ErrorStream *)

Module ErrorStream.

Record t := mk {
  scanner : bufio.Scanner;
  event : ErrorEvent;
  err : option error;
  closer : option io.Closer;
  closed : bool
}.

Definition set_scanner (s : t) (sc : bufio.Scanner) : t :=
  mk sc (event s) (err s) (closer s) (closed s).
Definition set_event (s : t) (ev : ErrorEvent) : t :=
  mk (scanner s) ev (err s) (closer s) (closed s).
Definition set_err (s : t) (e : option error) : t :=
  mk (scanner s) (event s) e (closer s) (closed s).
Definition set_closed (s : t) (b : bool) : t :=
  mk (scanner s) (event s) (err s) (closer s) b.

Definition Err (s : t) : option error := err s.
Definition Event (s : t) : ErrorEvent := event s.
Definition Bytes (s : t) : bytes := bufio.Bytes (scanner s).

Section Next.

Variable Unmarshal : json.Unmarshaler ErrorEvent.

(** The loop of [Next] that looks for a non-empty line.  The result
    is [false] when the loop returned false from [Next] and [true]
    when it reached its break.  Every iteration whose line is empty
    has consumed that line's terminator, so the bytes the scanner
    still holds bound the number of iterations. *)
Fixpoint scanLoop (fuel : nat) (s : t) : bool * t :=
  match fuel with
  | O => (false, s)
  | S fuel' =>
      let (ok, sc) := bufio.Scan (scanner s) in
      let s := set_scanner s sc in
      if negb ok then
        (false, if negb (closed s) then set_err s (bufio.Err (scanner s)) else s)
      else if negb (length (bufio.Bytes (scanner s)) =? 0) then (true, s)
      else scanLoop fuel' s
  end.

(** [Next] past its entry check: the loop, then the decoding of the
    line into the event field. *)
Definition scanAndDecode (s : t) : bool * t :=
  match scanLoop (S (length (io.pending (bufio.src (scanner s))))) s with
  | (false, s) => (false, s)
  | (true, s) =>
      let (ev, e) := Unmarshal (bufio.Bytes (scanner s)) (event s) in
      let s := set_event s ev in
      match e with
      | Some e' => (false, if negb (closed s) then set_err s (Some e') else s)
      | None => (true, s)
      end
  end.

Definition Next (s : t) : bool * t :=
  if negb (isNil (err s)) || closed s then (false, s)
  else scanAndDecode s.

End Next.

(** [Close].  The closer is the object the scanner reads from, so its
    [Close] acts on the scanner's source. *)
Definition Close (s : t) : option error * t :=
  match closer s with
  | Some c =>
      let s := set_closed s true in
      let (r, e) := c (bufio.src (scanner s)) in
      (e, set_scanner s (bufio.mkScanner r (bufio.token (scanner s))
                                          (bufio.err (scanner s))))
  | None => (None, s)
  end.

End ErrorStream.

Definition NewErrorStream (r : io.Reader) : ErrorStream.t :=
  let s := ErrorStream.mk (bufio.NewScanner (io.source r))
                          zeroErrorEvent None None false in
  match io.asCloser r with
  | Some c => ErrorStream.mk (ErrorStream.scanner s) (ErrorStream.event s)
                             (ErrorStream.err s) (Some c) (ErrorStream.closed s)
  | None => s
  end.

(** ** AuditStream *)

Module AuditStream.

Record t := mk {
  scanner : bufio.Scanner;
  event : AuditEvent;
  err : option error;
  closer : option io.Closer;
  closed : bool
}.

Definition set_scanner (s : t) (sc : bufio.Scanner) : t :=
  mk sc (event s) (err s) (closer s) (closed s).
Definition set_event (s : t) (ev : AuditEvent) : t :=
  mk (scanner s) ev (err s) (closer s) (closed s).
Definition set_err (s : t) (e : option error) : t :=
  mk (scanner s) (event s) e (closer s) (closed s).
Definition set_closed (s : t) (b : bool) : t :=
  mk (scanner s) (event s) (err s) (closer s) b.

Definition Err (s : t) : option error := err s.
Definition Event (s : t) : AuditEvent := event s.
Definition Bytes (s : t) : bytes := bufio.Bytes (scanner s).

Section Next.

Variable Unmarshal : json.Unmarshaler AuditEvent.

(** The loop of [Next], as in [ErrorStream.scanLoop]. *)
Fixpoint scanLoop (fuel : nat) (s : t) : bool * t :=
  match fuel with
  | O => (false, s)
  | S fuel' =>
      let (ok, sc) := bufio.Scan (scanner s) in
      let s := set_scanner s sc in
      if negb ok then
        (false, if negb (closed s) then set_err s (bufio.Err (scanner s)) else s)
      else if negb (length (bufio.Bytes (scanner s)) =? 0) then (true, s)
      else scanLoop fuel' s
  end.

Definition scanAndDecode (s : t) : bool * t :=
  match scanLoop (S (length (io.pending (bufio.src (scanner s))))) s with
  | (false, s) => (false, s)
  | (true, s) =>
      let (ev, e) := Unmarshal (bufio.Bytes (scanner s)) (event s) in
      let s := set_event s ev in
      match e with
      | Some e' => (false, if negb (closed s) then set_err s (Some e') else s)
      | None => (true, s)
      end
  end.

Definition Next (s : t) : bool * t :=
  if negb (isNil (err s)) || closed s then (false, s)
  else scanAndDecode s.

End Next.

Definition Close (s : t) : option error * t :=
  match closer s with
  | Some c =>
      let s := set_closed s true in
      let (r, e) := c (bufio.src (scanner s)) in
      (e, set_scanner s (bufio.mkScanner r (bufio.token (scanner s))
                                          (bufio.err (scanner s))))
  | None => (None, s)
  end.

End AuditStream.

Definition NewAuditStream (r : io.Reader) : AuditStream.t :=
  let s := AuditStream.mk (bufio.NewScanner (io.source r))
                          zeroAuditEvent None None false in
  match io.asCloser r with
  | Some c => AuditStream.mk (AuditStream.scanner s) (AuditStream.event s)
                             (AuditStream.err s) (Some c) (AuditStream.closed s)
  | None => s
  end.

(** ** The line-delimited event stream, generic in the record type

    The state machine both stream kinds are meant to be: a scanner, the
    last decoded event, a sticky error, an optional closable resource and
    a closed flag, with the advance operation in the three steps of the
    design (terminal check, search for a non-empty line, decoding). *)

Module LineStream.

Section Machine.

Variable E : Type.

Record t := mk {
  scanner : bufio.Scanner;
  event : E;
  err : option error;
  closer : option io.Closer;
  closed : bool
}.

Variable Unmarshal : json.Unmarshaler E.

Definition New (zero : E) (r : io.Reader) : t :=
  mk (bufio.NewScanner (io.source r)) zero None (io.asCloser r) false.

(** Step 2: read lines until one is not empty. *)
Fixpoint readLine (fuel : nat) (sc : bufio.Scanner) : bool * bufio.Scanner :=
  match fuel with
  | O => (false, sc)
  | S fuel' =>
      match bufio.Scan sc with
      | (false, sc') => (false, sc')
      | (true, sc') =>
          match bufio.Bytes sc' with
          | [] => readLine fuel' sc'
          | _ :: _ => (true, sc')
          end
      end
  end.

Definition nextLine (sc : bufio.Scanner) : bool * bufio.Scanner :=
  readLine (S (length (io.pending (bufio.src sc)))) sc.

(** Recording a sticky error, unless the stream is closed. *)
Definition record (s : t) (e : option error) : t :=
  if closed s then s
  else mk (scanner s) (event s) e (closer s) (closed s).

Definition Next (s : t) : bool * t :=
  match err s, closed s with
  | None, false =>
      match nextLine (scanner s) with
      | (false, sc) =>
          (false, record (mk sc (event s) (err s) (closer s) (closed s))
                         (bufio.Err sc))
      | (true, sc) =>
          match Unmarshal (bufio.Bytes sc) (event s) with
          | (ev, Some e) =>
              (false, record (mk sc ev (err s) (closer s) (closed s)) (Some e))
          | (ev, None) =>
              (true, mk sc ev (err s) (closer s) (closed s))
          end
      end
  | _, _ => (false, s)
  end.

Definition Close (s : t) : option error * t :=
  match closer s with
  | None => (None, s)
  | Some c =>
      let (r, e) := c (bufio.src (scanner s)) in
      (e, mk (bufio.mkScanner r (bufio.token (scanner s))
                                (bufio.err (scanner s)))
             (event s) (err s) (closer s) true)
  end.

End Machine.

End LineStream.

(** ** The exposed interface and what a caller observes through it *)

(** advance, close and the accessors of one stream kind over its state
    type; [position] is the input its scanner has not consumed. *)
Record Iterator (S E : Type) := mkIterator {
  next : S -> bool * S;
  close : S -> option error * S;
  getErr : S -> option error;
  getEvent : S -> E;
  getBytes : S -> bytes;
  position : S -> bytes
}.

Definition ErrorIterator (U : json.Unmarshaler ErrorEvent)
  : Iterator ErrorStream.t ErrorEvent :=
  {| next := ErrorStream.Next U;
     close := ErrorStream.Close;
     getErr := ErrorStream.Err;
     getEvent := ErrorStream.Event;
     getBytes := ErrorStream.Bytes;
     position := fun s => io.pending (bufio.src (ErrorStream.scanner s)) |}.

Definition AuditIterator (U : json.Unmarshaler AuditEvent)
  : Iterator AuditStream.t AuditEvent :=
  {| next := AuditStream.Next U;
     close := AuditStream.Close;
     getErr := AuditStream.Err;
     getEvent := AuditStream.Event;
     getBytes := AuditStream.Bytes;
     position := fun s => io.pending (bufio.src (AuditStream.scanner s)) |}.

Definition LineIterator (E : Type) (U : json.Unmarshaler E)
  : Iterator (LineStream.t E) E :=
  {| next := LineStream.Next U;
     close := @LineStream.Close E;
     getErr := @LineStream.err E;
     getEvent := @LineStream.event E;
     getBytes := fun s => bufio.Bytes (LineStream.scanner s);
     position := fun s => io.pending (bufio.src (LineStream.scanner s)) |}.

(** What the caller sees after one advance: its result, then the event,
    the raw bytes and the sticky error. *)
Record Seen (E : Type) := mkSeen {
  more : bool;
  seenEvent : E;
  seenBytes : bytes;
  seenErr : option error
}.

Section Observe.

Variables S E : Type.
Variable it : Iterator S E.

Definition look (b : bool) (s : S) : Seen E :=
  mkSeen b (getEvent it s) (getBytes it s) (getErr it s).

(** [n] successive advance calls. *)
Fixpoint advances (n : nat) (s : S) : list (Seen E) * S :=
  match n with
  | O => ([], s)
  | Datatypes.S n' =>
      let (b, s1) := next it s in
      let (l, s2) := advances n' s1 in
      (look b s1 :: l, s2)
  end.

(** [n] successive close calls. *)
Fixpoint closes (n : nat) (s : S) : list (option error) * S :=
  match n with
  | O => ([], s)
  | Datatypes.S n' =>
      let (e, s1) := close it s in
      let (l, s2) := closes n' s1 in
      (e :: l, s2)
  end.

End Observe.

(** Arbitrary interleavings of the two mutating operations. *)
Inductive Op := OpNext | OpClose.

Inductive Out (E : Type) :=
| NextOut (o : Seen E)
| CloseOut (e : option error).

Section Run.

Variables S E : Type.
Variable it : Iterator S E.

Definition step (o : Op) (s : S) : Out E * S :=
  match o with
  | OpNext => let (b, s1) := next it s in (NextOut (look it b s1), s1)
  | OpClose => let (e, s1) := close it s in (CloseOut E e, s1)
  end.

Fixpoint run (ops : list Op) (s : S) : list (Out E) * S :=
  match ops with
  | [] => ([], s)
  | o :: ops' =>
      let (x, s1) := step o s in
      let (l, s2) := run ops' s1 in
      (x :: l, s2)
  end.

End Run.

(** ** The generic machine as the abstraction of both stream kinds *)

Definition absError (s : ErrorStream.t) : LineStream.t ErrorEvent :=
  LineStream.mk (ErrorStream.scanner s) (ErrorStream.event s)
                (ErrorStream.err s) (ErrorStream.closer s) (ErrorStream.closed s).

Definition absAudit (s : AuditStream.t) : LineStream.t AuditEvent :=
  LineStream.mk (AuditStream.scanner s) (AuditStream.event s)
                (AuditStream.err s) (AuditStream.closer s) (AuditStream.closed s).

(** An implementation refines the generic machine through [abs] when
    every operation commutes with it. *)
Record Refines (S E : Type) (it : Iterator S E) (U : json.Unmarshaler E)
       (abs : S -> LineStream.t E) : Prop := {
  ref_next : forall s,
    LineStream.Next U (abs s) = (fst (next it s), abs (snd (next it s)));
  ref_close : forall s,
    LineStream.Close (abs s) = (fst (close it s), abs (snd (close it s)));
  ref_err : forall s, getErr it s = LineStream.err (abs s);
  ref_event : forall s, getEvent it s = LineStream.event (abs s);
  ref_bytes : forall s, getBytes it s = bufio.Bytes (LineStream.scanner (abs s));
  ref_position : forall s,
    position it s = io.pending (bufio.src (LineStream.scanner (abs s)));
  ref_inj : forall s1 s2, abs s1 = abs s2 -> s1 = s2
}.

(** ** The wire format: lines and their terminators *)

(** One line of the input: its content and whether it ends in a carriage
    return and a newline or in a newline alone. *)
Record Line := mkLine { payload : bytes; crlf : bool }.

Definition terminator (l : Line) : bytes :=
  if crlf l then [CR; LF] else [LF].

Definition wire (l : Line) : bytes := payload l ++ terminator l.

(** The content of a byte source: terminated lines, then a last line
    that the end of the data terminates (empty when there is none). *)
Definition render (ls : list Line) (tail : bytes) : bytes :=
  flat_map wire ls ++ tail.

(** Line content holds no newline, and before a bare newline it does not
    end in a carriage return (that one would belong to the terminator). *)
Definition plain (l : Line) : Prop :=
  ~ In LF (payload l) /\ (crlf l = false -> last (payload l) x00 <> CR).

(** A line fits when the scanner's buffer can hold it up to its
    newline. *)
Definition fits (l : Line) : Prop :=
  length (payload l) + (if crlf l then 1 else 0) < bufio.MaxScanTokenSize.

Definition okLine (l : Line) : Prop := plain l /\ fits l.

Definition okTail (tail : bytes) : Prop :=
  plain (mkLine tail false) /\ length tail < bufio.MaxScanTokenSize.

Definition isBlank (p : bytes) : bool :=
  match p with [] => true | _ :: _ => false end.

(** The non-empty lines, in order. *)
Definition nonblank (ps : list bytes) : list bytes :=
  filter (fun p => negb (isBlank p)) ps.

Definition contents (ls : list Line) (tail : bytes) : list bytes :=
  nonblank (map payload ls ++ [tail]).

(** The bytes of a line before its newline. *)
Definition upToLF (l : Line) : bytes :=
  payload l ++ (if crlf l then [CR] else []).

(** ** States and observations used to state the properties *)

(** What [bufio.Err] makes of the reader's final error. *)
Definition errOf (f : error) : option error :=
  match f with io_EOF => None | _ => Some f end.

(** An open stream whose scanner still has [data] to consume. *)
Definition opened (E : Type) (data : bytes) (f : error) (tk : bytes) (ev : E)
           (c : option io.Closer) : LineStream.t E :=
  LineStream.mk (bufio.mkScanner (io.mkSource data f) tk None) ev None c false.

(** The stream once the scanner has met the end of its reader. *)
Definition drained (E : Type) (f : error) (tk : bytes) (ev : E)
           (e : option error) (c : option io.Closer) : LineStream.t E :=
  LineStream.mk (bufio.mkScanner (io.mkSource [] f) tk (Some f)) ev e c false.

(** The stream after a line failed to decode. *)
Definition errored (E : Type) (rest : bytes) (f : error) (tk : bytes) (ev : E)
           (e : error) (c : option io.Closer) : LineStream.t E :=
  LineStream.mk (bufio.mkScanner (io.mkSource rest f) tk None) ev (Some e) c false.

(** The events and raw lines a caller sees while [ps] decode. *)
Fixpoint decoded (E : Type) (U : json.Unmarshaler E) (ev : E) (ps : list bytes)
  : list (Seen E) :=
  match ps with
  | [] => []
  | p :: ps' =>
      let ev' := fst (U p ev) in
      mkSeen true ev' p None :: decoded U ev' ps'
  end.

(** The event field after [ps] were decoded into it in turn. *)
Definition settle (E : Type) (U : json.Unmarshaler E) (ev : E) (ps : list bytes) : E :=
  fold_left (fun e p => fst (U p e)) ps ev.

(** The decoder takes every line of [ps], whatever the event field holds. *)
Definition accepts (E : Type) (U : json.Unmarshaler E) (ps : list bytes) : Prop :=
  forall p, In p ps -> forall ev, snd (U p ev) = None.

(** From [s0], [n] advances show [seen] and then [last]; the scanner is
    left with [rest] to consume, and every later advance shows [last]
    again and changes nothing. *)
Definition stopsAt (S E : Type) (it : Iterator S E) (s0 : S) (n : nat)
           (seen : list (Seen E)) (last : Seen E) (rest : bytes) : Prop :=
  exists s,
    advances it n s0 = (seen ++ [last], s) /\
    position it s = rest /\
    forall m, advances it m s = (repeat last m, s).

(** Two closers that act alike on the source, whatever they return. *)
Definition sameEffect (c1 c2 : io.Closer) : Prop :=
  forall r, fst (c1 r) = fst (c2 r).

(** The advance observations within a run. *)
Definition nextsOnly (E : Type) (outs : list (Out E)) : list (Seen E) :=
  flat_map (fun o => match o with NextOut x => [x] | CloseOut _ _ => [] end) outs.

(** Two states of the generic machine that differ at most in what their
    closers return. *)
Definition alike (E : Type) (s1 s2 : LineStream.t E) : Prop :=
  LineStream.scanner s1 = LineStream.scanner s2 /\
  LineStream.event s1 = LineStream.event s2 /\
  LineStream.err s1 = LineStream.err s2 /\
  LineStream.closed s1 = LineStream.closed s2 /\
  match LineStream.closer s1, LineStream.closer s2 with
  | Some c1, Some c2 => sameEffect c1 c2
  | None, None => True
  | _, _ => False
  end.

(** What an output shows apart from the decoded event. *)
Definition shape (E : Type) (o : Out E) : (bool * bytes * option error) + option error :=
  match o with
  | NextOut x => inl (more x, seenBytes x, seenErr x)
  | CloseOut _ e => inr e
  end.

(** Decoders that accept the same lines and fail alike on the others. *)
Definition sameErrors (E1 E2 : Type) (U1 : json.Unmarshaler E1)
           (U2 : json.Unmarshaler E2) : Prop :=
  forall line e1 e2, snd (U1 line e1) = snd (U2 line e2).

(** An error stream and an audit stream in the same state of the machine:
    all fields equal but the events. *)
Definition sameMachine (sE : ErrorStream.t) (sA : AuditStream.t) : Prop :=
  ErrorStream.scanner sE = AuditStream.scanner sA /\
  ErrorStream.err sE = AuditStream.err sA /\
  ErrorStream.closer sE = AuditStream.closer sA /\
  ErrorStream.closed sE = AuditStream.closed sA.

(** The same agreement between two instances of the generic machine. *)
Definition twin (E1 E2 : Type) (s1 : LineStream.t E1) (s2 : LineStream.t E2) : Prop :=
  LineStream.scanner s1 = LineStream.scanner s2 /\
  LineStream.err s1 = LineStream.err s2 /\
  LineStream.closer s1 = LineStream.closer s2 /\
  LineStream.closed s1 = LineStream.closed s2.

(** ** Decoders for the compact wire forms

    Two instances of the decoder parameter, enough to run the streams on
    concrete inputs: the compact form of an error event,
    [{"message":"..."}], and of an audit event that carries a request path
    only, [{"request":{"path":"..."}}].  As [json.Unmarshal] does, the
    second leaves the fields that the line does not mention as they
    were. *)

Module Example.

Definition quote : byte := x22.

Definition text (s : string) : bytes := list_byte_of_string s.

Definition messageOpen : bytes :=
  [x7b; quote] ++ text "message" ++ [quote; x3a; quote].

Definition messageClose : bytes := [quote; x7d].

(** The line [{"message":"m"}]. *)
Definition messageLine (m : string) : bytes :=
  messageOpen ++ text m ++ messageClose.

Definition pathOpen : bytes :=
  [x7b; quote] ++ text "request" ++ [quote; x3a; x7b; quote] ++ text "path" ++
  [quote; x3a; quote].

Definition pathClose : bytes := [quote; x7d; x7d].

(** The line [{"request":{"path":"p"}}]. *)
Definition pathLine (p : string) : bytes :=
  pathOpen ++ text p ++ pathClose.

Fixpoint stripPrefix (p l : bytes) : option bytes :=
  match p, l with
  | [], _ => Some l
  | x :: p', y :: l' => if Byte.eqb x y then stripPrefix p' l' else None
  | _ :: _, [] => None
  end.

Definition reversed (l : bytes) : bytes := rev_append l [].

Definition stripSuffix (p l : bytes) : option bytes :=
  option_map reversed (stripPrefix (reversed p) (reversed l)).

(** Bytes that stand for themselves inside a JSON string. *)
Definition literal (b : byte) : bool :=
  negb (Byte.eqb b quote) && negb (Byte.eqb b x5c) && (32 <=? Byte.to_nat b).

Definition between (opening closing data : bytes) : option bytes :=
  match stripPrefix opening data with
  | Some r =>
      match stripSuffix closing r with
      | Some m => if forallb literal m then Some m else None
      | None => None
      end
  | None => None
  end.

Definition syntaxError : error := errorString "invalid character".

Definition UnmarshalErrorEvent : json.Unmarshaler ErrorEvent :=
  fun data ev =>
    match between messageOpen messageClose data with
    | Some m => ({| Message := string_of_list_byte m |}, None)
    | None => (ev, Some syntaxError)
    end.

Definition UnmarshalAuditEvent : json.Unmarshaler AuditEvent :=
  fun data ev =>
    match between pathOpen pathClose data with
    | Some p =>
        ({| Time := Time ev;
            Request := {| Path := string_of_list_byte p;
                          Identity := Identity (Request ev) |};
            Response := Response ev |}, None)
    | None => (ev, Some syntaxError)
    end.

(** A closable resource whose [Close] fails and after which reads fail. *)
Definition failingCloser : io.Closer :=
  fun _ => (io.mkSource [] (errorString "read on closed body"),
            Some (errorString "close failed")).

Definition quietCloser : io.Closer :=
  fun _ => (io.mkSource [] (errorString "read on closed body"), None).

(** The input of the design's example: two events around an empty line. *)
Definition twoEvents : list Line :=
  [mkLine (messageLine "disk full") false;
   mkLine [] false;
   mkLine (messageLine "timeout") false].

(** A line of valid JSON that is too long for the scanner. *)
Definition longLine : bytes :=
  messageOpen ++ repeat x61 bufio.MaxScanTokenSize ++ messageClose.

(** A line that is not JSON and fills the scanner's buffer. *)
Definition longGarbage : bytes := repeat x78 bufio.MaxScanTokenSize.

End Example.

(** A checker for [okLine] on concrete lines. *)
Definition okLineb (l : Line) : bool :=
  forallb (fun b => negb (Byte.eqb b LF)) (payload l) &&
  (crlf l || negb (Byte.eqb (last (payload l) x00) CR)) &&
  (length (payload l) + (if crlf l then 1 else 0) <? bufio.MaxScanTokenSize).

(** An audit decoder that accepts what the error decoder accepts. *)
Definition validating (data : bytes) (ev : AuditEvent) : AuditEvent * option error :=
  (ev, snd (Example.UnmarshalErrorEvent data zeroErrorEvent)).

(** ** Further observations *)

(** From [s0], [n] advances show [seen] and then [last], and every later
    advance shows [last] again and changes nothing. *)
Definition settlesOn (S E : Type) (it : Iterator S E) (s0 : S) (n : nat)
           (seen : list (Seen E)) (last : Seen E) : Prop :=
  exists s,
    advances it n s0 = (seen ++ [last], s) /\
    forall m, advances it m s = (repeat last m, s).


(** Every advance within a run returned false. *)
Definition allNegative (E : Type) (outs : list (Out E)) : Prop :=
  Forall (fun x => more x = false) (nextsOnly outs).

(** What [n] successive calls of a closer return, and the source they
    leave. *)
Fixpoint closeTimes (c : io.Closer) (n : nat) (r : io.Source)
  : list (option error) * io.Source :=
  match n with
  | O => ([], r)
  | S n' =>
      let (r1, e) := c r in
      let (l, r2) := closeTimes c n' r1 in
      (e :: l, r2)
  end.

(** A closer that reports that it was closed before. *)
Definition onceCloser : io.Closer :=
  fun r =>
    match io.pending r, io.fin r with
    | [], errorString _ => (r, Some (errorString "already closed"))
    | _, _ => (io.mkSource [] (errorString "read on closed body"), None)
    end.

(** * Properties *)

(** ** The scanner *)

Module bufio_facts.

Import bufio.

Lemma IndexByte_lt b c i : IndexByte b c = Some i -> i < length b.
Proof.
  revert i. induction b as [|x b IH]; simpl; intros i H; [discriminate|].
  destruct (Byte.eqb x c).
  - injection H as <-. lia.
  - destruct (IndexByte b c) as [j|]; simpl in H; [|discriminate].
    injection H as <-. specialize (IH j eq_refl). lia.
Qed.

Lemma IndexByte_app_found b c r :
  ~ In c b -> IndexByte (b ++ c :: r) c = Some (length b).
Proof.
  induction b as [|x b IH]; simpl; intros Hn.
  - rewrite (Byte.byte_dec_lb eq_refl). reflexivity.
  - destruct (Byte.eqb x c) eqn:Hx.
    + apply Byte.byte_dec_bl in Hx. exfalso. apply Hn. now left.
    + rewrite IH by (intro; apply Hn; now right). reflexivity.
Qed.

Lemma IndexByte_None_iff b c : IndexByte b c = None <-> ~ In c b.
Proof.
  induction b as [|x b IH]; simpl.
  - split; [intros _ []|reflexivity].
  - destruct (Byte.eqb x c) eqn:Hx.
    + apply Byte.byte_dec_bl in Hx. split; [discriminate|].
      intros Hn. exfalso. apply Hn. now left.
    + apply Byte.eqb_false in Hx.
      destruct (IndexByte b c) as [j|]; simpl.
      * split; [discriminate|]. intros Hn. exfalso.
        destruct IH as [_ IH]. 
        assert (Some j = None) by (apply IH; intro; apply Hn; now right).
        discriminate.
      * split; [|reflexivity]. intros _ [Hin|Hin]; [congruence|].
        destruct IH as [IH _]. now apply IH.
Qed.

Lemma IndexByte_firstn b c i n :
  IndexByte b c = Some i -> i < n -> IndexByte (firstn n b) c = Some i.
Proof.
  revert i n. induction b as [|x b IH]; simpl; intros i n H Hlt; [discriminate|].
  destruct n as [|n]; [lia|]. simpl.
  destruct (Byte.eqb x c); [assumption|].
  destruct (IndexByte b c) as [j|]; simpl in H; [|discriminate].
  injection H as <-. rewrite (IH j n eq_refl) by lia. reflexivity.
Qed.

Lemma ScanLines_token_advance data atEOF adv tok :
  ScanLines data atEOF = (adv, Some tok) -> 0 < adv <= length data.
Proof.
  unfold ScanLines.
  destruct (atEOF && (length data =? 0)) eqn:He; [discriminate|].
  destruct (IndexByte data LF) as [i|] eqn:Hi.
  - intros H. injection H as <- _. apply IndexByte_lt in Hi. lia.
  - destruct atEOF; [|discriminate]. intros H. injection H as <- _.
    simpl in He. apply Nat.eqb_neq in He. lia.
Qed.

(** A scan that yields a token has consumed at least one byte. *)
Lemma Scan_true_shrinks sc sc' :
  Scan sc = (true, sc') ->
  length (io.pending (src sc')) < length (io.pending (src sc)).
Proof.
  assert (Heof : forall e, scanAtEOF sc e = (true, sc') ->
                  length (io.pending (src sc')) < length (io.pending (src sc))).
  { intros e. unfold scanAtEOF.
    destruct (ScanLines (io.pending (src sc)) true) as [adv [tok|]] eqn:Hs;
      [|discriminate].
    intros H. injection H as <-. simpl.
    apply ScanLines_token_advance in Hs. rewrite length_skipn. lia. }
  unfold Scan. destruct (err sc) as [e|]; [apply Heof|].
  destruct (ScanLines (firstn MaxScanTokenSize (io.pending (src sc))) false)
    as [adv [tok|]] eqn:Hs.
  - intros H. injection H as <-. simpl.
    apply ScanLines_token_advance in Hs. rewrite length_firstn in Hs.
    rewrite length_skipn. lia.
  - destruct (MaxScanTokenSize <=? _); [discriminate|apply Heof].
Qed.

(** A scan that fails leaves an error in the scanner and no token. *)
Lemma Scan_false sc sc' :
  Scan sc = (false, sc') ->
  err sc' <> None /\ token sc' = [] /\
  (bufio.Err sc' = None -> io.pending (src sc') = [] /\ err sc' = Some io_EOF).
Proof.
  assert (Heof : forall e, scanAtEOF sc (Some e) = (false, sc') ->
    err sc' = Some e /\ token sc' = [] /\ io.pending (src sc') = []).
  { intros e. unfold scanAtEOF.
    destruct (ScanLines (io.pending (src sc)) true) as [adv [tok|]];
      [discriminate|].
    intros H. injection H as <-. simpl. auto. }
  assert (Herr : forall e, err sc' = Some e -> Err sc' = None -> e = io_EOF).
  { intros e He. unfold Err. rewrite He. destruct e; congruence. }
  unfold Scan. destruct (err sc) as [e|].
  - intros H. apply Heof in H as (He & Ht & Hp). rewrite He.
    repeat split; try congruence. rewrite <- (Herr e He); auto.
  - destruct (ScanLines _ false) as [adv [tok|]]; [discriminate|].
    destruct (MaxScanTokenSize <=? _).
    + intros H. injection H as <-. simpl. repeat split; try congruence;
        unfold Err in *; simpl in *; discriminate.
    + intros H. apply Heof in H as (He & Ht & Hp). rewrite He.
      repeat split; try congruence. rewrite <- (Herr _ He); auto.
Qed.

End bufio_facts.

(** ** The search for a non-empty line terminates *)

Module readLine_facts.

Import bufio LineStream.

Lemma readLine_fuel f1 : forall f2 sc,
  length (io.pending (src sc)) < f1 ->
  length (io.pending (src sc)) < f2 ->
  readLine f1 sc = readLine f2 sc.
Proof.
  induction f1 as [|f1 IH]; intros f2 sc H1 H2; [lia|].
  destruct f2 as [|f2]; [lia|]. simpl.
  destruct (Scan sc) as [[|] sc'] eqn:Hs; [|reflexivity].
  destruct (Bytes sc'); [|reflexivity].
  pose proof (bufio_facts.Scan_true_shrinks _ Hs).
  apply IH; lia.
Qed.

(** [nextLine] is the loop: it satisfies the loop's unfolding. *)
Lemma nextLine_unfold sc :
  nextLine sc =
  match Scan sc with
  | (false, sc') => (false, sc')
  | (true, sc') =>
      match Bytes sc' with
      | [] => nextLine sc'
      | _ :: _ => (true, sc')
      end
  end.
Proof.
  unfold nextLine at 1. simpl.
  destruct (Scan sc) as [[|] sc'] eqn:Hs; [|reflexivity].
  destruct (Bytes sc'); [|reflexivity].
  pose proof (bufio_facts.Scan_true_shrinks _ Hs).
  apply readLine_fuel; lia.
Qed.

Lemma nextLine_false sc sc' :
  nextLine sc = (false, sc') ->
  bufio.err sc' <> None /\ token sc' = [] /\
  (bufio.Err sc' = None -> io.pending (src sc') = [] /\ bufio.err sc' = Some io_EOF).
Proof.
  remember (length (io.pending (src sc))) as n eqn:Hn.
  revert sc Hn. induction n as [n IH] using lt_wf_ind. intros sc Hn.
  rewrite nextLine_unfold.
  destruct (Scan sc) as [[|] sc1] eqn:Hs.
  - destruct (Bytes sc1); [|discriminate].
    pose proof (bufio_facts.Scan_true_shrinks _ Hs).
    apply (IH (length (io.pending (src sc1)))); [lia|reflexivity].
  - intros H. injection H as <-. now apply bufio_facts.Scan_false with sc.
Qed.

End readLine_facts.

(** ** Both stream kinds refine the generic machine *)

Lemma absError_inj s1 s2 : absError s1 = absError s2 -> s1 = s2.
Proof. destruct s1, s2. unfold absError. simpl. congruence. Qed.

Lemma absAudit_inj s1 s2 : absAudit s1 = absAudit s2 -> s1 = s2.
Proof. destruct s1, s2. unfold absAudit. simpl. congruence. Qed.

Lemma ErrorStream_scanLoop fuel : forall s,
  length (io.pending (bufio.src (ErrorStream.scanner s))) < fuel ->
  ErrorStream.scanLoop fuel s =
  match LineStream.readLine fuel (ErrorStream.scanner s) with
  | (true, sc) => (true, ErrorStream.set_scanner s sc)
  | (false, sc) =>
      (false, if negb (ErrorStream.closed s)
              then ErrorStream.set_err (ErrorStream.set_scanner s sc) (bufio.Err sc)
              else ErrorStream.set_scanner s sc)
  end.
Proof.
  induction fuel as [|fuel IH]; intros s Hlt; [lia|]. simpl.
  destruct (bufio.Scan (ErrorStream.scanner s)) as [[|] sc] eqn:Hs; simpl;
    [|reflexivity].
  destruct (bufio.Bytes sc) eqn:Hb; simpl; [|reflexivity].
  pose proof (bufio_facts.Scan_true_shrinks _ Hs).
  rewrite IH by (simpl; lia). simpl.
  destruct (LineStream.readLine fuel sc) as [[|] sc']; reflexivity.
Qed.

Lemma AuditStream_scanLoop fuel : forall s,
  length (io.pending (bufio.src (AuditStream.scanner s))) < fuel ->
  AuditStream.scanLoop fuel s =
  match LineStream.readLine fuel (AuditStream.scanner s) with
  | (true, sc) => (true, AuditStream.set_scanner s sc)
  | (false, sc) =>
      (false, if negb (AuditStream.closed s)
              then AuditStream.set_err (AuditStream.set_scanner s sc) (bufio.Err sc)
              else AuditStream.set_scanner s sc)
  end.
Proof.
  induction fuel as [|fuel IH]; intros s Hlt; [lia|]. simpl.
  destruct (bufio.Scan (AuditStream.scanner s)) as [[|] sc] eqn:Hs; simpl;
    [|reflexivity].
  destruct (bufio.Bytes sc) eqn:Hb; simpl; [|reflexivity].
  pose proof (bufio_facts.Scan_true_shrinks _ Hs).
  rewrite IH by (simpl; lia). simpl.
  destruct (LineStream.readLine fuel sc) as [[|] sc']; reflexivity.
Qed.

Lemma ErrorStream_refines U : Refines (ErrorIterator U) U absError.
Proof.
  constructor; try reflexivity; [| |exact absError_inj].
  - intros [sc ev e c cl]. unfold next, ErrorIterator, ErrorStream.Next,
      ErrorStream.scanAndDecode, LineStream.Next, absError.
    cbn [ErrorStream.scanner ErrorStream.event ErrorStream.err ErrorStream.closer
         ErrorStream.closed LineStream.scanner LineStream.event LineStream.err
         LineStream.closer LineStream.closed].
    destruct e as [e|]; [reflexivity|]. destruct cl; [reflexivity|].
    cbn [isNil negb orb].
    rewrite ErrorStream_scanLoop by (simpl; lia).
    cbn [ErrorStream.scanner]. fold (LineStream.nextLine sc).
    destruct (LineStream.nextLine sc) as [[|] sc']; [|reflexivity].
    cbn. unfold bufio.Bytes.
    destruct (U (bufio.token sc') ev) as [ev' [e'|]]; reflexivity.
  - intros [sc ev e c cl]. unfold close, ErrorIterator, ErrorStream.Close,
      LineStream.Close, absError. cbn.
    destruct c as [c|]; [|reflexivity].
    destruct (c (bufio.src sc)); reflexivity.
Qed.

Lemma AuditStream_refines U : Refines (AuditIterator U) U absAudit.
Proof.
  constructor; try reflexivity; [| |exact absAudit_inj].
  - intros [sc ev e c cl]. unfold next, AuditIterator, AuditStream.Next,
      AuditStream.scanAndDecode, LineStream.Next, absAudit.
    cbn [AuditStream.scanner AuditStream.event AuditStream.err AuditStream.closer
         AuditStream.closed LineStream.scanner LineStream.event LineStream.err
         LineStream.closer LineStream.closed].
    destruct e as [e|]; [reflexivity|]. destruct cl; [reflexivity|].
    cbn [isNil negb orb].
    rewrite AuditStream_scanLoop by (simpl; lia).
    cbn [AuditStream.scanner]. fold (LineStream.nextLine sc).
    destruct (LineStream.nextLine sc) as [[|] sc']; [|reflexivity].
    cbn. unfold bufio.Bytes.
    destruct (U (bufio.token sc') ev) as [ev' [e'|]]; reflexivity.
  - intros [sc ev e c cl]. unfold close, AuditIterator, AuditStream.Close,
      LineStream.Close, absAudit. cbn.
    destruct c as [c|]; [|reflexivity].
    destruct (c (bufio.src sc)); reflexivity.
Qed.

Section Transfer.

Variables S E : Type.
Variable it : Iterator S E.
Variable U : json.Unmarshaler E.
Variable abs : S -> LineStream.t E.
Hypothesis R : Refines it U abs.

Lemma look_refines b s : look it b s = look (LineIterator U) b (abs s).
Proof.
  unfold look. rewrite (ref_err R), (ref_event R), (ref_bytes R). reflexivity.
Qed.

Lemma advances_refines n : forall s,
  advances (LineIterator U) n (abs s) =
  (fst (advances it n s), abs (snd (advances it n s))).
Proof.
  induction n as [|n IH]; intros s; simpl; [reflexivity|].
  rewrite (ref_next R). destruct (next it s) as [b s1]. simpl.
  rewrite IH. destruct (advances it n s1) as [l s2]. simpl.
  rewrite look_refines. reflexivity.
Qed.

Lemma closes_refines n : forall s,
  closes (LineIterator U) n (abs s) =
  (fst (closes it n s), abs (snd (closes it n s))).
Proof.
  induction n as [|n IH]; intros s; simpl; [reflexivity|].
  rewrite (ref_close R). destruct (close it s) as [e s1]. simpl.
  rewrite IH. destruct (closes it n s1) as [l s2]. reflexivity.
Qed.

Lemma run_refines ops : forall s,
  run (LineIterator U) ops (abs s) =
  (fst (run it ops s), abs (snd (run it ops s))).
Proof.
  induction ops as [|o ops IH]; intros s; simpl; [reflexivity|].
  destruct o; simpl.
  - rewrite (ref_next R). destruct (next it s) as [b s1]. simpl.
    rewrite IH. destruct (run it ops s1) as [l s2]. simpl.
    rewrite look_refines. reflexivity.
  - rewrite (ref_close R). destruct (close it s) as [e s1]. simpl.
    rewrite IH. destruct (run it ops s1) as [l s2]. reflexivity.
Qed.

End Transfer.

Lemma absError_New r :
  absError (NewErrorStream r) = LineStream.New zeroErrorEvent r.
Proof. unfold NewErrorStream, LineStream.New. destruct (io.asCloser r); reflexivity. Qed.

Lemma absAudit_New r :
  absAudit (NewAuditStream r) = LineStream.New zeroAuditEvent r.
Proof. unfold NewAuditStream, LineStream.New. destruct (io.asCloser r); reflexivity. Qed.

Module wire_facts.

Import bufio.

Lemma MaxScanTokenSize_pos : 0 < MaxScanTokenSize.
Proof.
  with_strategy transparent [MaxScanTokenSize] (unfold MaxScanTokenSize).
  apply Nat.mul_pos_pos; lia.
Qed.

Lemma dropCR_plain p : last p x00 <> CR -> dropCR p = p.
Proof.
  intros H. unfold dropCR.
  destruct (Byte.eqb (last p x00) CR) eqn:Hb.
  - apply Byte.byte_dec_bl in Hb. contradiction.
  - now rewrite andb_false_r.
Qed.

Lemma dropCR_CR p : dropCR (p ++ [CR]) = p.
Proof.
  unfold dropCR. rewrite last_last, removelast_last, last_length.
  rewrite (Byte.byte_dec_lb eq_refl). reflexivity.
Qed.

Lemma wire_upToLF l rest : wire l ++ rest = upToLF l ++ LF :: rest.
Proof.
  unfold wire, upToLF, terminator. destruct (crlf l); rewrite <- !app_assoc; reflexivity.
Qed.

Lemma upToLF_length l :
  length (upToLF l) = length (payload l) + (if crlf l then 1 else 0).
Proof. unfold upToLF. rewrite length_app. destruct (crlf l); reflexivity. Qed.

Lemma upToLF_noLF l : plain l -> ~ In LF (upToLF l).
Proof.
  intros [Hn _] Hin. unfold upToLF in Hin. apply in_app_or in Hin as [Hin|Hin]; [auto|].
  destruct (crlf l); simpl in Hin; [|contradiction].
  destruct Hin as [Hin|[]]. discriminate.
Qed.

Lemma dropCR_upToLF l : plain l -> dropCR (upToLF l) = payload l.
Proof.
  intros [_ Hl]. unfold upToLF. destruct (crlf l).
  - apply dropCR_CR.
  - rewrite app_nil_r. apply dropCR_plain. now apply Hl.
Qed.

(** Splitting a buffer that starts with a whole line. *)
Lemma ScanLines_line l rest atEOF :
  plain l ->
  ScanLines (wire l ++ rest) atEOF = (length (upToLF l) + 1, Some (payload l)).
Proof.
  intros Hp. unfold ScanLines. rewrite wire_upToLF.
  rewrite length_app. simpl length.
  replace (length (upToLF l) + Datatypes.S (length rest) =? 0) with false
    by (symmetry; apply Nat.eqb_neq; lia).
  rewrite andb_false_r.
  rewrite bufio_facts.IndexByte_app_found by now apply upToLF_noLF.
  rewrite firstn_app, firstn_all, Nat.sub_diag. simpl firstn.
  rewrite app_nil_r, dropCR_upToLF by assumption. reflexivity.
Qed.

End wire_facts.

Module Scan_facts.

Import bufio wire_facts.

Lemma one_lt_MaxScanTokenSize : 1 < MaxScanTokenSize.
Proof.
  with_strategy transparent [MaxScanTokenSize] (unfold MaxScanTokenSize).
  change 1 with (1 * 1). apply Nat.mul_lt_mono; lia.
Qed.

Lemma IndexByte_firstn_None b c i n :
  IndexByte b c = Some i -> n <= i -> IndexByte (firstn n b) c = None.
Proof.
  revert i n. induction b as [|x b IH]; simpl; intros i n H Hle; [discriminate|].
  destruct n as [|n]; [reflexivity|]. simpl.
  destruct (Byte.eqb x c); [injection H as <-; lia|].
  destruct (IndexByte b c) as [j|]; simpl in H; [|discriminate].
  injection H as <-. rewrite (IH j n eq_refl) by lia. reflexivity.
Qed.

Lemma IndexByte_wire l rest :
  plain l -> IndexByte (wire l ++ rest) LF = Some (length (upToLF l)).
Proof.
  intros Hp. rewrite wire_upToLF.
  apply bufio_facts.IndexByte_app_found. now apply upToLF_noLF.
Qed.

Lemma firstn_wire l rest :
  firstn (length (upToLF l)) (wire l ++ rest) = upToLF l.
Proof.
  rewrite wire_upToLF, firstn_app, firstn_all, Nat.sub_diag.
  simpl. apply app_nil_r.
Qed.

Lemma skipn_wire l rest :
  skipn (length (upToLF l) + 1) (wire l ++ rest) = rest.
Proof.
  rewrite wire_upToLF, skipn_app, skipn_all2 by lia.
  replace (length (upToLF l) + 1 - length (upToLF l)) with 1 by lia.
  reflexivity.
Qed.

(** A line that fits is the next token. *)
Lemma Scan_line l rest f tk :
  okLine l ->
  Scan (mkScanner (io.mkSource (wire l ++ rest) f) tk None) =
  (true, mkScanner (io.mkSource rest f) (payload l) None).
Proof.
  intros [Hp Hf]. unfold Scan, fits in *. cbn [err src io.pending io.fin].
  pose proof (@IndexByte_wire l rest Hp) as Hi.
  rewrite <- upToLF_length in Hf.
  unfold ScanLines. cbn [andb].
  rewrite (bufio_facts.IndexByte_firstn _ _ Hi Hf).
  rewrite firstn_firstn, Nat.min_l by lia.
  rewrite firstn_wire, skipn_wire, dropCR_upToLF by assumption. reflexivity.
Qed.

(** So is a line met after the reader's final error was recorded. *)
Lemma Scan_line_held l rest f tk e :
  plain l ->
  Scan (mkScanner (io.mkSource (wire l ++ rest) f) tk (Some e)) =
  (true, mkScanner (io.mkSource rest f) (payload l) (Some e)).
Proof.
  intros Hp. unfold Scan, scanAtEOF. cbn [err src io.pending io.fin].
  rewrite ScanLines_line, skipn_wire by assumption. reflexivity.
Qed.

(** A line that does not fit stops the scanner. *)
Lemma Scan_line_long l rest f tk :
  plain l -> ~ fits l ->
  fst (Scan (mkScanner (io.mkSource (wire l ++ rest) f) tk None)) = false.
Proof.
  intros Hp Hf. unfold Scan, fits in *. cbn [err src io.pending io.fin].
  pose proof (@IndexByte_wire l rest Hp) as Hi.
  rewrite <- upToLF_length in Hf.
  unfold ScanLines. cbn [andb].
  rewrite (IndexByte_firstn_None _ _ Hi) by lia.
  apply bufio_facts.IndexByte_lt in Hi.
  replace (MaxScanTokenSize <=? _) with true; [reflexivity|].
  symmetry. apply Nat.leb_le. rewrite length_firstn. lia.
Qed.

Lemma plain_IndexByte p : plain (mkLine p false) -> IndexByte p LF = None.
Proof. intros [Hn _]. now apply bufio_facts.IndexByte_None_iff. Qed.

(** The last line, which the end of the data terminates. *)
Lemma Scan_tail tail f tk :
  okTail tail -> tail <> [] ->
  Scan (mkScanner (io.mkSource tail f) tk None) =
  (true, mkScanner (io.mkSource [] f) tail (Some f)).
Proof.
  intros [Hp Hlen] Hne. unfold Scan, scanAtEOF.
  cbn [err src io.pending io.fin].
  rewrite firstn_all2 by lia.
  unfold ScanLines. cbn [andb]. rewrite (plain_IndexByte Hp).
  replace (MaxScanTokenSize <=? length tail) with false
    by (symmetry; apply Nat.leb_gt; lia).
  replace (length tail =? 0) with false
    by (symmetry; apply Nat.eqb_neq; destruct tail; simpl; congruence).
  cbn [andb]. rewrite skipn_all, dropCR_plain by now apply Hp. reflexivity.
Qed.

Lemma Scan_end f tk :
  Scan (mkScanner (io.mkSource [] f) tk None) =
  (false, mkScanner (io.mkSource [] f) [] (Some f)).
Proof.
  unfold Scan, scanAtEOF. cbn [err src io.pending io.fin].
  rewrite firstn_nil. cbn [ScanLines andb IndexByte length Nat.eqb].
  replace (MaxScanTokenSize <=? 0) with false; [reflexivity|].
  symmetry. apply Nat.leb_gt. apply MaxScanTokenSize_pos.
Qed.

Lemma Scan_end_held f tk e :
  Scan (mkScanner (io.mkSource [] f) tk (Some e)) =
  (false, mkScanner (io.mkSource [] f) [] (Some e)).
Proof. reflexivity. Qed.

End Scan_facts.

(** ** The generic machine *)

(** Projections of the generic state applied to a constructor. *)
Ltac fields :=
  cbn [LineStream.err LineStream.closed LineStream.scanner LineStream.event
       LineStream.closer bufio.Bytes bufio.token bufio.src bufio.err
       io.pending io.fin].

Section LineStream_facts.

Variable E : Type.
Variable U : json.Unmarshaler E.

Let T := LineStream.t E.
Let Next := LineStream.Next U.
Let it := LineIterator U.

Lemma Next_terminal (s : T) :
  LineStream.err s <> None \/ LineStream.closed s = true ->
  Next s = (false, s).
Proof.
  intros H. unfold Next, LineStream.Next.
  destruct (LineStream.err s) eqn:He, (LineStream.closed s) eqn:Hc;
    try reflexivity.
  destruct H; congruence.
Qed.

Lemma Next_skip l rest f tk ev c :
  okLine l -> payload l = [] ->
  Next (opened (wire l ++ rest) f tk ev c) = Next (opened rest f [] ev c).
Proof.
  intros Hok Hb. unfold Next, LineStream.Next, opened.
  fields.
  rewrite readLine_facts.nextLine_unfold, Scan_facts.Scan_line by assumption.
  fields. rewrite Hb. reflexivity.
Qed.

Lemma Next_line l rest f tk ev c :
  okLine l -> payload l <> [] ->
  Next (opened (wire l ++ rest) f tk ev c) =
  match U (payload l) ev with
  | (ev', None) => (true, opened rest f (payload l) ev' c)
  | (ev', Some e) => (false, errored rest f (payload l) ev' e c)
  end.
Proof.
  intros Hok Hb. unfold Next, LineStream.Next, opened.
  fields.
  rewrite readLine_facts.nextLine_unfold, Scan_facts.Scan_line by assumption.
  fields.
  destruct (payload l) as [|b p] eqn:Hp; [congruence|]. fields.
  destruct (U (b :: p) ev) as [ev' [e|]]; reflexivity.
Qed.

Lemma Next_tail tail f tk ev c :
  okTail tail -> tail <> [] ->
  Next (opened tail f tk ev c) =
  match U tail ev with
  | (ev', None) => (true, drained f tail ev' None c)
  | (ev', Some e) => (false, drained f tail ev' (Some e) c)
  end.
Proof.
  intros Hok Hb. unfold Next, LineStream.Next, opened.
  fields.
  rewrite readLine_facts.nextLine_unfold, Scan_facts.Scan_tail by assumption.
  fields.
  destruct tail as [|b p] eqn:Hp; [congruence|]. fields.
  destruct (U (b :: p) ev) as [ev' [e|]]; reflexivity.
Qed.

Lemma Next_end f tk ev c :
  Next (opened [] f tk ev c) = (false, drained f [] ev (errOf f) c).
Proof.
  unfold Next, LineStream.Next, opened.
  fields.
  rewrite readLine_facts.nextLine_unfold, Scan_facts.Scan_end.
  destruct f; reflexivity.
Qed.

Lemma Next_drained f tk ev c :
  Next (drained f tk ev None c) = (false, drained f [] ev (errOf f) c).
Proof.
  unfold Next, LineStream.Next, drained.
  fields.
  rewrite readLine_facts.nextLine_unfold, Scan_facts.Scan_end_held.
  destruct f; reflexivity.
Qed.

Lemma advances_terminal n (s : T) :
  LineStream.err s <> None \/ LineStream.closed s = true ->
  advances it n s = (repeat (look it false s) n, s).
Proof.
  intros H. induction n as [|n IH]; simpl; [reflexivity|].
  fold Next. rewrite (Next_terminal _ H), IH. reflexivity.
Qed.

Lemma advances_same_first n (s s' : T) :
  Next s = Next s' ->
  advances it (Datatypes.S n) s = advances it (Datatypes.S n) s'.
Proof. intros H. simpl. fold Next. rewrite H. reflexivity. Qed.

Lemma contents_cons l ls tail :
  contents (l :: ls) tail =
  if isBlank (payload l) then contents ls tail
  else payload l :: contents ls tail.
Proof. unfold contents, nonblank. simpl. destruct (isBlank (payload l)); reflexivity. Qed.

Lemma isBlank_true p : isBlank p = true -> p = [].
Proof. destruct p; [reflexivity|discriminate]. Qed.

Lemma isBlank_false p : isBlank p = false -> p <> [].
Proof. destruct p; [discriminate|congruence]. Qed.

(** Every line that fits and decodes is delivered, in order; then the
    stream ends with the reader's final error, if it is one. *)
Lemma all_lines f c tail ls :
  Forall okLine ls -> okTail tail -> accepts U (contents ls tail) ->
  forall tk ev,
    advances it (Datatypes.S (length (contents ls tail)))
             (opened (render ls tail) f tk ev c) =
    (decoded U ev (contents ls tail) ++
       [mkSeen false (settle U ev (contents ls tail)) [] (errOf f)],
     drained f [] (settle U ev (contents ls tail)) (errOf f) c).
Proof.
  intros Hls Htail. induction Hls as [|l ls Hl Hls IH]; intros Hacc tk ev.
  - unfold render, contents, nonblank. simpl flat_map. simpl app. simpl filter.
    destruct (isBlank tail) eqn:Hb.
    + apply isBlank_true in Hb. subst tail. simpl. fold Next.
      rewrite Next_end. reflexivity.
    + apply isBlank_false in Hb. simpl. fold Next.
      rewrite Next_tail by assumption.
      specialize (Hacc tail). unfold contents, nonblank in Hacc. simpl in Hacc.
      destruct (isBlank tail) eqn:Hb'; [apply isBlank_true in Hb'; congruence|].
      specialize (Hacc (or_introl eq_refl) ev).
      destruct (U tail ev) as [ev' [e|]]; simpl in Hacc; [discriminate|].
      rewrite Next_drained. reflexivity.
  - unfold render in *. simpl flat_map. rewrite <- app_assoc.
    rewrite contents_cons in *. destruct (isBlank (payload l)) eqn:Hb.
    + apply isBlank_true in Hb.
      rewrite (advances_same_first _ _ _ (Next_skip _ _ _ _ _ Hl Hb)).
      now apply IH.
    + apply isBlank_false in Hb.
      simpl length. change (advances it (Datatypes.S ?n) ?s) with
        (let (b, s1) := Next s in
         let (l0, s2) := advances it n s1 in (look it b s1 :: l0, s2)).
      rewrite Next_line by assumption.
      pose proof (Hacc (payload l) (or_introl eq_refl) ev) as Hok.
      destruct (U (payload l) ev) as [ev' [e|]] eqn:HU; simpl in Hok;
        [discriminate|].
      rewrite IH by (intros p Hp; apply Hacc; now right).
      simpl. rewrite HU. reflexivity.
Qed.

End LineStream_facts.

Section LineStream_more.

Variable E : Type.
Variable U : json.Unmarshaler E.

Local Abbreviation Next := (LineStream.Next U).
Let it := LineIterator U.

(** The first line that does not decode stops the stream where it is. *)
Lemma bad_line f c rest bad derr pre :
  Forall okLine pre -> okLine bad -> payload bad <> [] ->
  accepts U (nonblank (map payload pre)) ->
  (forall ev, snd (U (payload bad) ev) = Some derr) ->
  forall tk ev,
    let good := nonblank (map payload pre) in
    let ev' := fst (U (payload bad) (settle U ev good)) in
    advances it (Datatypes.S (length good))
             (opened (flat_map wire pre ++ wire bad ++ rest) f tk ev c) =
    (decoded U ev good ++ [mkSeen false ev' (payload bad) (Some derr)],
     errored rest f (payload bad) ev' derr c).
Proof.
  intros Hpre Hbad Hne. induction Hpre as [|l ls Hl Hls IH];
    intros Hacc Hrej tk ev.
  - simpl. rewrite Next_line by assumption.
    specialize (Hrej ev).
    destruct (U (payload bad) ev) as [ev' [e|]]; simpl in Hrej;
      [|discriminate].
    injection Hrej as ->. reflexivity.
  - simpl flat_map. rewrite <- app_assoc. simpl map. unfold nonblank in *.
    simpl filter in *. destruct (isBlank (payload l)) eqn:Hb; simpl negb in *;
      cbv iota in *.
    + apply isBlank_true in Hb.
      rewrite (advances_same_first _ _ _ _ (Next_skip U _ _ _ _ _ Hl Hb)).
      now apply IH.
    + apply isBlank_false in Hb.
      simpl length. change (advances it (Datatypes.S ?n) ?s) with
        (let (b, s1) := Next s in
         let (l0, s2) := advances it n s1 in (look it b s1 :: l0, s2)).
      rewrite Next_line by assumption.
      pose proof (Hacc (payload l) (or_introl eq_refl) ev) as Hok.
      destruct (U (payload l) ev) as [ev1 [e|]] eqn:HU; simpl in Hok;
        [discriminate|].
      rewrite IH by (try assumption; intros p Hp; apply Hacc; now right).
      simpl. rewrite HU. reflexivity.
Qed.

Lemma plain_blank b : payload b = [] -> plain b.
Proof. intros Hb. split; rewrite Hb; [intros []|discriminate]. Qed.

Lemma okLine_blank b : payload b = [] -> okLine b.
Proof.
  intros Hb. split; [now apply plain_blank|]. unfold fits. rewrite Hb.
  pose proof Scan_facts.one_lt_MaxScanTokenSize. destruct (crlf b); simpl; lia.
Qed.

(** The token the search stops at is the first non-empty line. *)
Lemma nextLine_token l rest blanks :
  Forall (fun b => payload b = []) blanks ->
  plain l -> payload l <> [] ->
  forall sc sc',
    io.pending (bufio.src sc) = flat_map wire blanks ++ wire l ++ rest ->
    LineStream.nextLine sc = (true, sc') ->
    bufio.token sc' = payload l.
Proof.
  intros Hbl Hp Hne. induction Hbl as [|b bs Hb Hbs IH];
    intros [[p f] tk e] sc'; cbn [bufio.src io.pending]; intros ->.
  - simpl app. rewrite readLine_facts.nextLine_unfold.
    destruct e as [e|].
    + rewrite Scan_facts.Scan_line_held by assumption. fields.
      destruct (payload l); [congruence|]. intros H. now injection H as <-.
    + destruct (lt_dec (length (payload l) + (if crlf l then 1 else 0))
                       bufio.MaxScanTokenSize) as [Hf|Hf].
      * rewrite Scan_facts.Scan_line by (split; assumption). fields.
        destruct (payload l); [congruence|]. intros H. now injection H as <-.
      * pose proof (@Scan_facts.Scan_line_long l rest f tk Hp Hf) as Hs.
        destruct (bufio.Scan _) as [ok sc1]. simpl in Hs. subst ok.
        discriminate.
  - simpl flat_map. rewrite <- app_assoc.
    rewrite readLine_facts.nextLine_unfold.
    destruct e as [e|].
    + rewrite Scan_facts.Scan_line_held by now apply plain_blank.
      fields. rewrite Hb. now apply IH.
    + rewrite Scan_facts.Scan_line by now apply okLine_blank.
      fields. rewrite Hb. now apply IH.
Qed.

Lemma Next_true (s s' : LineStream.t E) :
  Next s = (true, s') ->
  LineStream.nextLine (LineStream.scanner s) = (true, LineStream.scanner s').
Proof.
  unfold LineStream.Next.
  destruct (LineStream.err s); [discriminate|].
  destruct (LineStream.closed s); [discriminate|].
  destruct (LineStream.nextLine (LineStream.scanner s)) as [[|] sc];
    [|discriminate].
  destruct (U (bufio.Bytes sc) (LineStream.event s)) as [ev [e|]];
    [discriminate|].
  intros H. now injection H as <-.
Qed.

(** After a clean end of data the stream is a fixed point of advance. *)
Lemma Next_clean_end (s s' : LineStream.t E) :
  Next s = (false, s') ->
  LineStream.err s' = None -> LineStream.closed s' = false ->
  Next s' = (false, s').
Proof.
  unfold LineStream.Next at 1.
  destruct (LineStream.err s) eqn:He; [intros H; injection H as <-; congruence|].
  destruct (LineStream.closed s) eqn:Hc; [intros H; injection H as <-; congruence|].
  destruct (LineStream.nextLine (LineStream.scanner s)) as [[|] sc] eqn:Hn.
  - destruct (U (bufio.Bytes sc) (LineStream.event s)) as [ev [e|]];
      [|discriminate].
    unfold LineStream.record. fields. intros H. injection H as <-.
    discriminate.
  - unfold LineStream.record. fields. intros H. injection H as <-. fields.
    intros Herr _.
    apply readLine_facts.nextLine_false in Hn as (_ & Ht & Hend).
    destruct (Hend Herr) as [Hp Hs].
    destruct sc as [[p f] tk e]. simpl in *. subst p tk e.
    unfold LineStream.Next. fields. rewrite Herr.
    rewrite readLine_facts.nextLine_unfold, Scan_facts.Scan_end_held.
    reflexivity.
Qed.

Lemma Next_clean_end_bytes (s s' : LineStream.t E) :
  Next s = (false, s') ->
  LineStream.err s' = None -> LineStream.closed s' = false ->
  bufio.Bytes (LineStream.scanner s') = [].
Proof.
  unfold LineStream.Next at 1.
  destruct (LineStream.err s) eqn:He; [intros H; injection H as <-; congruence|].
  destruct (LineStream.closed s) eqn:Hc; [intros H; injection H as <-; congruence|].
  destruct (LineStream.nextLine (LineStream.scanner s)) as [[|] sc] eqn:Hn.
  - destruct (U (bufio.Bytes sc) (LineStream.event s)) as [ev [e|]];
      [|discriminate].
    unfold LineStream.record. fields. intros H. injection H as <-.
    discriminate.
  - unfold LineStream.record. fields. intros H. injection H as <-. fields.
    intros _ _.
    now apply readLine_facts.nextLine_false in Hn as (_ & Ht & _).
Qed.

Lemma Close_frame (s : LineStream.t E) :
  LineStream.err (snd (LineStream.Close s)) = LineStream.err s /\
  LineStream.event (snd (LineStream.Close s)) = LineStream.event s /\
  fst (LineStream.Close s) =
    match LineStream.closer s with
    | Some c => snd (c (bufio.src (LineStream.scanner s)))
    | None => None
    end.
Proof.
  unfold LineStream.Close. destruct (LineStream.closer s) as [c|]; [|auto].
  destruct (c _); auto.
Qed.

Lemma Close_closed (s : LineStream.t E) :
  LineStream.closed s = true ->
  LineStream.closed (snd (LineStream.Close s)) = true.
Proof.
  unfold LineStream.Close. destruct (LineStream.closer s) as [c|]; [|auto].
  destruct (c _); auto.
Qed.

Lemma Close_noop (s : LineStream.t E) :
  LineStream.closer s = None -> LineStream.Close s = (None, s).
Proof. unfold LineStream.Close. now intros ->. Qed.

Lemma closes_noop n (s : LineStream.t E) :
  LineStream.closer s = None -> closes it n s = (repeat None n, s).
Proof.
  intros H. induction n as [|n IH]; simpl; [reflexivity|].
  rewrite (Close_noop _ H), IH. reflexivity.
Qed.

(** No operation rebinds the closer. *)
Lemma run_closer ops : forall s : LineStream.t E,
  LineStream.closer (snd (run it ops s)) = LineStream.closer s.
Proof.
  induction ops as [|o ops IH]; intros s; simpl; [reflexivity|].
  destruct o; simpl.
  - destruct (LineStream.Next U s) as [b s1] eqn:HN.
    specialize (IH s1). destruct (run it ops s1) as [l s2]. simpl in *.
    rewrite IH. revert HN. unfold LineStream.Next.
    destruct (LineStream.err s); [intros H; now injection H as _ <-|].
    destruct (LineStream.closed s) eqn:Hc; [intros H; now injection H as _ <-|].
    destruct (LineStream.nextLine (LineStream.scanner s)) as [[|] sc].
    + destruct (U (bufio.Bytes sc) (LineStream.event s)) as [ev [e|]];
        unfold LineStream.record; fields; rewrite ?Hc; intros H;
        now injection H as _ <-.
    + unfold LineStream.record; fields; rewrite ?Hc; intros H;
        now injection H as _ <-.
  - destruct (LineStream.Close s) as [e s1] eqn:HC.
    specialize (IH s1). destruct (run it ops s1) as [l s2]. simpl in *.
    rewrite IH. revert HC. unfold LineStream.Close.
    destruct (LineStream.closer s) as [c|] eqn:Hcl.
    + destruct (c _). intros H. now injection H as _ <-.
    + intros H. now injection H as _ <-.
Qed.

(** Once closed, no operation touches the sticky error or the event. *)
Lemma closed_frame ops : forall s : LineStream.t E,
  LineStream.closed s = true ->
  LineStream.err (snd (run it ops s)) = LineStream.err s /\
  LineStream.event (snd (run it ops s)) = LineStream.event s /\
  LineStream.closed (snd (run it ops s)) = true.
Proof.
  induction ops as [|o ops IH]; intros s Hc; simpl; [auto|].
  destruct o; simpl.
  - rewrite Next_terminal by auto.
    destruct (IH s Hc) as (H1 & H2 & H3).
    destruct (run it ops s) as [l s2]. auto.
  - destruct (Close_frame s) as (H1 & H2 & _).
    pose proof (Close_closed s Hc) as H3.
    destruct (LineStream.Close s) as [e s1]. simpl in *.
    destruct (IH s1 H3) as (H4 & H5 & H6).
    destruct (run it ops s1) as [l s2]. simpl in *. repeat split; congruence.
Qed.

End LineStream_more.

(** ** The result of closing never reaches the iteration *)

Section Independence.

Variable E : Type.
Variable U : json.Unmarshaler E.

Lemma Next_alike s1 s2 :
  alike s1 s2 ->
  fst (LineStream.Next U s1) = fst (LineStream.Next U s2) /\
  alike (snd (LineStream.Next U s1)) (snd (LineStream.Next U s2)) /\
  look (LineIterator U) (fst (LineStream.Next U s1)) (snd (LineStream.Next U s1)) =
  look (LineIterator U) (fst (LineStream.Next U s2)) (snd (LineStream.Next U s2)).
Proof.
  destruct s1 as [sc ev e c1 cl], s2 as [sc2 ev2 e2 c2 cl2].
  intros (H1 & H2 & H3 & H4 & H5). simpl in H1, H2, H3, H4, H5. subst sc2 ev2 e2 cl2.
  unfold LineStream.Next. fields.
  destruct e as [e|]; [unfold alike, look; simpl; auto 10|].
  destruct cl; [unfold alike, look; simpl; auto 10|].
  destruct (LineStream.nextLine sc) as [[|] sc'].
  - destruct (U (bufio.Bytes sc') ev) as [ev' [e'|]];
      unfold alike, look, LineStream.record; simpl; auto 10.
  - unfold alike, look, LineStream.record; simpl; auto 10.
Qed.

Lemma Close_alike (s1 s2 : LineStream.t E) :
  alike s1 s2 ->
  alike (snd (LineStream.Close s1)) (snd (LineStream.Close s2)).
Proof.
  destruct s1 as [sc ev e c1 cl], s2 as [sc2 ev2 e2 c2 cl2].
  intros (H1 & H2 & H3 & H4 & H5). simpl in H1, H2, H3, H4, H5. subst sc2 ev2 e2 cl2.
  unfold LineStream.Close. fields.
  destruct c1 as [c1|], c2 as [c2|]; try contradiction.
  - specialize (H5 (bufio.src sc)) as Hr.
    destruct (c1 (bufio.src sc)) as [r1 x1], (c2 (bufio.src sc)) as [r2 x2].
    simpl in Hr. subst r2. unfold alike. simpl. auto 10.
  - unfold alike. simpl. auto 10.
Qed.

Lemma run_alike ops : forall s1 s2,
  alike s1 s2 ->
  nextsOnly (fst (run (LineIterator U) ops s1)) =
  nextsOnly (fst (run (LineIterator U) ops s2)).
Proof.
  induction ops as [|o ops IH]; intros s1 s2 H; simpl; [reflexivity|].
  destruct o; simpl.
  - destruct (Next_alike H) as (Hb & Ha & Hl).
    destruct (LineStream.Next U s1) as [b1 t1], (LineStream.Next U s2) as [b2 t2].
    simpl in Hb, Ha, Hl. specialize (IH _ _ Ha).
    destruct (run (LineIterator U) ops t1), (run (LineIterator U) ops t2).
    simpl in *. congruence.
  - pose proof (Close_alike H) as Ha.
    destruct (LineStream.Close s1) as [x1 t1], (LineStream.Close s2) as [x2 t2].
    simpl in Ha. specialize (IH _ _ Ha).
    destruct (run (LineIterator U) ops t1), (run (LineIterator U) ops t2).
    simpl in *. assumption.
Qed.

End Independence.

(** ** The guard on error recording inside [Next] *)

Lemma ErrorStream_scanLoop_closed fuel : forall s,
  ErrorStream.closed s = true ->
  ErrorStream.err (snd (ErrorStream.scanLoop fuel s)) = ErrorStream.err s /\
  ErrorStream.closed (snd (ErrorStream.scanLoop fuel s)) = true.
Proof.
  induction fuel as [|fuel IH]; intros s Hc; simpl; [auto|].
  destruct (bufio.Scan (ErrorStream.scanner s)) as [[|] sc]; simpl.
  - destruct (length (bufio.Bytes sc) =? 0); simpl; [|auto].
    destruct (IH (ErrorStream.set_scanner s sc) Hc); auto.
  - rewrite Hc. simpl. auto.
Qed.

Lemma AuditStream_scanLoop_closed fuel : forall s,
  AuditStream.closed s = true ->
  AuditStream.err (snd (AuditStream.scanLoop fuel s)) = AuditStream.err s /\
  AuditStream.closed (snd (AuditStream.scanLoop fuel s)) = true.
Proof.
  induction fuel as [|fuel IH]; intros s Hc; simpl; [auto|].
  destruct (bufio.Scan (AuditStream.scanner s)) as [[|] sc]; simpl.
  - destruct (length (bufio.Bytes sc) =? 0); simpl; [|auto].
    destruct (IH (AuditStream.set_scanner s sc) Hc); auto.
  - rewrite Hc. simpl. auto.
Qed.

Lemma ErrorStream_scanAndDecode_closed U s :
  ErrorStream.closed s = true ->
  ErrorStream.Err (snd (ErrorStream.scanAndDecode U s)) = ErrorStream.Err s.
Proof.
  intros Hc. unfold ErrorStream.scanAndDecode, ErrorStream.Err.
  destruct (ErrorStream_scanLoop_closed
              (Datatypes.S (length (io.pending (bufio.src (ErrorStream.scanner s)))))
              s Hc) as [He Hc'].
  destruct (ErrorStream.scanLoop _ s) as [[|] s1]; simpl in He, Hc'; [|assumption].
  destruct (U (bufio.Bytes (ErrorStream.scanner s1)) (ErrorStream.event s1))
    as [ev [e|]]; simpl; [rewrite Hc'; simpl|]; assumption.
Qed.

Lemma AuditStream_scanAndDecode_closed U s :
  AuditStream.closed s = true ->
  AuditStream.Err (snd (AuditStream.scanAndDecode U s)) = AuditStream.Err s.
Proof.
  intros Hc. unfold AuditStream.scanAndDecode, AuditStream.Err.
  destruct (AuditStream_scanLoop_closed
              (Datatypes.S (length (io.pending (bufio.src (AuditStream.scanner s)))))
              s Hc) as [He Hc'].
  destruct (AuditStream.scanLoop _ s) as [[|] s1]; simpl in He, Hc'; [|assumption].
  destruct (U (bufio.Bytes (AuditStream.scanner s1)) (AuditStream.event s1))
    as [ev [e|]]; simpl; [rewrite Hc'; simpl|]; assumption.
Qed.

Lemma okLineb_sound l : okLineb l = true -> okLine l.
Proof.
  unfold okLineb. rewrite !andb_true_iff. intros [[H1 H2] H3].
  split; [split|].
  - intros Hin. rewrite forallb_forall in H1. specialize (H1 _ Hin).
    unfold LF in H1. simpl in H1. discriminate.
  - intros Hc. rewrite Hc in H2. simpl in H2.
    intros Heq. rewrite Heq in H2. discriminate.
  - unfold fits. now apply Nat.ltb_lt.
Qed.

Lemma Forall_okLineb ls : forallb okLineb ls = true -> Forall okLine ls.
Proof.
  rewrite forallb_forall, Forall_forall. intros H l Hl.
  apply okLineb_sound. now apply H.
Qed.

Lemma okTail_nil : okTail [].
Proof.
  split; [split; [intros []|discriminate]|]. apply wire_facts.MaxScanTokenSize_pos.
Qed.

(** ** Two record types, one machine *)

Section Twins.

Variables E1 E2 : Type.
Variable U1 : json.Unmarshaler E1.
Variable U2 : json.Unmarshaler E2.
Hypothesis HU : sameErrors U1 U2.

Lemma Next_twin s1 s2 :
  twin s1 s2 ->
  fst (LineStream.Next U1 s1) = fst (LineStream.Next U2 s2) /\
  twin (snd (LineStream.Next U1 s1)) (snd (LineStream.Next U2 s2)).
Proof.
  destruct s1 as [sc ev1 e c cl], s2 as [sc2 ev2 e2 c2 cl2].
  intros (H1 & H2 & H3 & H4). simpl in H1, H2, H3, H4. subst sc2 e2 c2 cl2.
  unfold LineStream.Next. fields.
  destruct e as [e|]; [unfold twin; simpl; auto|].
  destruct cl; [unfold twin; simpl; auto|].
  destruct (LineStream.nextLine sc) as [[|] sc'].
  - specialize (HU (bufio.Bytes sc') ev1 ev2).
    destruct (U1 (bufio.Bytes sc') ev1) as [ev1' [x1|]],
             (U2 (bufio.Bytes sc') ev2) as [ev2' [x2|]];
      simpl in HU; try discriminate;
      unfold twin, LineStream.record; simpl; auto.
  - unfold twin, LineStream.record; simpl; auto.
Qed.

Lemma Close_twin (s1 : LineStream.t E1) (s2 : LineStream.t E2) :
  twin s1 s2 ->
  fst (LineStream.Close s1) = fst (LineStream.Close s2) /\
  twin (snd (LineStream.Close s1)) (snd (LineStream.Close s2)).
Proof.
  destruct s1 as [sc ev1 e c cl], s2 as [sc2 ev2 e2 c2 cl2].
  intros (H1 & H2 & H3 & H4). simpl in H1, H2, H3, H4. subst sc2 e2 c2 cl2.
  unfold LineStream.Close. fields.
  destruct c as [c|]; [|unfold twin; simpl; auto].
  destruct (c (bufio.src sc)) as [r x]. unfold twin. simpl. auto.
Qed.

Lemma run_twin ops : forall s1 s2,
  twin s1 s2 ->
  map (@shape E1) (fst (run (LineIterator U1) ops s1)) =
  map (@shape E2) (fst (run (LineIterator U2) ops s2)) /\
  twin (snd (run (LineIterator U1) ops s1)) (snd (run (LineIterator U2) ops s2)).
Proof.
  induction ops as [|o ops IH]; intros s1 s2 H; simpl; [auto|].
  destruct o; simpl.
  - destruct (Next_twin H) as [Hb Ht].
    destruct (LineStream.Next U1 s1) as [b1 t1], (LineStream.Next U2 s2) as [b2 t2].
    simpl in Hb, Ht. subst b2. destruct (IH _ _ Ht) as [Hl Hs].
    destruct (run (LineIterator U1) ops t1), (run (LineIterator U2) ops t2).
    simpl in *. split; [|assumption]. f_equal; [|assumption].
    destruct Ht as (Hsc & He & _). unfold shape, look. simpl. congruence.
  - destruct (Close_twin H) as [Hb Ht].
    destruct (LineStream.Close s1) as [x1 t1], (LineStream.Close s2) as [x2 t2].
    simpl in Hb, Ht. subst x2. destruct (IH _ _ Ht) as [Hl Hs].
    destruct (run (LineIterator U1) ops t1), (run (LineIterator U2) ops t2).
    simpl in *. split; [|assumption]. f_equal. assumption.
Qed.

End Twins.

Section Transfer_back.

Variables S E : Type.
Variable it : Iterator S E.
Variable U : json.Unmarshaler E.
Variable abs : S -> LineStream.t E.
Hypothesis R : Refines it U abs.

Lemma advances_back n s l s' :
  advances (LineIterator U) n (abs s) = (l, abs s') ->
  advances it n s = (l, s').
Proof.
  rewrite (advances_refines R). intros H. injection H as H1 H2.
  apply (ref_inj R) in H2. destruct (advances it n s); simpl in *. congruence.
Qed.

Lemma closes_back n s l s' :
  closes (LineIterator U) n (abs s) = (l, abs s') ->
  closes it n s = (l, s').
Proof.
  rewrite (closes_refines R). intros H. injection H as H1 H2.
  apply (ref_inj R) in H2. destruct (closes it n s); simpl in *. congruence.
Qed.

Lemma next_forth s b s' :
  next it s = (b, s') -> LineStream.Next U (abs s) = (b, abs s').
Proof. rewrite (ref_next R). now intros ->. Qed.

End Transfer_back.

(** * The claims *)

(** ** C1: every line is delivered, in order *)

(** C1 (as amended).  For a byte source whose content is lines that each
    fit the scanner's buffer, the non-empty ones being valid for the
    decoder, interspersed with empty lines and ended cleanly: with N the
    number of non-empty lines, the first N advances are positive and show
    the decoded record and the raw bytes of the lines in order, with no
    sticky error; the next advance is negative and the sticky error is
    still none.  The decoded record of a line is what the decoder leaves
    in the event field, which it fills in place as [json.Unmarshal] does.
    This holds for both stream kinds. *)
Theorem C1_lines_delivered_in_order
        (ls : list Line) (tail : bytes) (closer : option io.Closer) :
  Forall okLine ls -> okTail tail ->
  let r := io.mkReader (io.mkSource (render ls tail) io_EOF) closer in
  let ps := contents ls tail in
  (forall U : json.Unmarshaler ErrorEvent, accepts U ps ->
     fst (advances (ErrorIterator U) (S (length ps)) (NewErrorStream r)) =
     decoded U zeroErrorEvent ps ++
       [mkSeen false (settle U zeroErrorEvent ps) [] None]) /\
  (forall U : json.Unmarshaler AuditEvent, accepts U ps ->
     fst (advances (AuditIterator U) (S (length ps)) (NewAuditStream r)) =
     decoded U zeroAuditEvent ps ++
       [mkSeen false (settle U zeroAuditEvent ps) [] None]).
Proof.
  intros Hls Htail r ps. split; intros U Hacc.
  - pose proof (advances_refines (ErrorStream_refines U) (S (length ps))
                                 (NewErrorStream r)) as H.
    rewrite absError_New in H.
    change (LineStream.New zeroErrorEvent r)
      with (opened (render ls tail) io_EOF [] zeroErrorEvent closer) in H.
    unfold ps in H at 1. rewrite (all_lines io_EOF closer Hls Htail Hacc) in H.
    injection H as H _. symmetry. exact H.
  - pose proof (advances_refines (AuditStream_refines U) (S (length ps))
                                 (NewAuditStream r)) as H.
    rewrite absAudit_New in H.
    change (LineStream.New zeroAuditEvent r)
      with (opened (render ls tail) io_EOF [] zeroAuditEvent closer) in H.
    unfold ps in H at 1. rewrite (all_lines io_EOF closer Hls Htail Hacc) in H.
    injection H as H _. symmetry. exact H.
Qed.

(** The design's example: two events around an empty line. *)
Lemma C1_witness_two_events :
  fst (advances (ErrorIterator Example.UnmarshalErrorEvent) 3
         (NewErrorStream
            (io.mkReader (io.mkSource (render Example.twoEvents []) io_EOF) None))) =
  [mkSeen true {| Message := "disk full" |} (Example.messageLine "disk full") None;
   mkSeen true {| Message := "timeout" |} (Example.messageLine "timeout") None;
   mkSeen false {| Message := "timeout" |} [] None].
Proof.
  refine (proj1 (@C1_lines_delivered_in_order Example.twoEvents [] None _ okTail_nil)
                Example.UnmarshalErrorEvent _).
  - apply Forall_okLineb. vm_compute. reflexivity.
  - intros p Hp ev. vm_compute in Hp. destruct Hp as [<-|[<-|[]]]; reflexivity.
Defined.

(** C1 as stated fails on a line that is too long for the scanner: the
    source below holds one non-empty line, valid for the decoder, and the
    first advance is negative with a sticky error. *)
Lemma C1_counterexample_oversized_line :
  let ls := [mkLine Example.longLine false] in
  let s0 := NewErrorStream (io.mkReader (io.mkSource (render ls []) io_EOF) None) in
  let U := Example.UnmarshalErrorEvent in
  contents ls [] = [Example.longLine] /\
  bufio.IndexByte Example.longLine LF = None /\
  snd (U Example.longLine zeroErrorEvent) = None /\
  fst (ErrorStream.Next U s0) = false /\
  ErrorStream.Err (snd (ErrorStream.Next U s0)) = Some bufio_ErrTooLong.
Proof. repeat split; vm_compute; reflexivity. Qed.

(** ** C2: the first line that does not decode *)

Lemma stopsAt_refines (S E : Type) (it : Iterator S E) (U : json.Unmarshaler E)
      (abs : S -> LineStream.t E) (s0 : S) n seen last rest :
  Refines it U abs ->
  stopsAt (LineIterator U) (abs s0) n seen last rest ->
  stopsAt it s0 n seen last rest.
Proof.
  intros R (t & H1 & H2 & H3).
  rewrite (advances_refines R) in H1. injection H1 as H1 Ht.
  exists (snd (advances it n s0)). repeat split.
  - destruct (advances it n s0); simpl in *. congruence.
  - rewrite (ref_position R), Ht. exact H2.
  - intros m. apply (advances_back R). rewrite Ht. apply H3.
Qed.

(** C2 (as amended).  When the lines before the K-th non-empty line fit
    the scanner's buffer and decode, and the K-th fits and is rejected by
    the decoder with error [derr]: the first K-1 advances are positive
    with the decoded records in order, the K-th is negative, the sticky
    error is [derr] itself, and no later line is read: the scanner stands
    right after the K-th line and stays there under any number of further
    advances, which all return false. *)
Theorem C2_first_bad_line_stops
        (pre : list Line) (bad : Line) (rest : bytes) (f : error)
        (closer : option io.Closer) (derr : error) :
  Forall okLine pre -> okLine bad -> payload bad <> [] ->
  let r := io.mkReader
             (io.mkSource (flat_map wire pre ++ wire bad ++ rest) f) closer in
  let good := nonblank (map payload pre) in
  (forall U : json.Unmarshaler ErrorEvent,
     accepts U good -> (forall ev, snd (U (payload bad) ev) = Some derr) ->
     stopsAt (ErrorIterator U) (NewErrorStream r) (S (length good))
             (decoded U zeroErrorEvent good)
             (mkSeen false (fst (U (payload bad) (settle U zeroErrorEvent good)))
                     (payload bad) (Some derr))
             rest) /\
  (forall U : json.Unmarshaler AuditEvent,
     accepts U good -> (forall ev, snd (U (payload bad) ev) = Some derr) ->
     stopsAt (AuditIterator U) (NewAuditStream r) (S (length good))
             (decoded U zeroAuditEvent good)
             (mkSeen false (fst (U (payload bad) (settle U zeroAuditEvent good)))
                     (payload bad) (Some derr))
             rest).
Proof.
  intros Hpre Hbad Hne r good.
  assert (G : forall (E : Type) (U : json.Unmarshaler E) (zero : E),
             accepts U good -> (forall ev, snd (U (payload bad) ev) = Some derr) ->
             stopsAt (LineIterator U) (LineStream.New zero r) (S (length good))
                     (decoded U zero good)
                     (mkSeen false (fst (U (payload bad) (settle U zero good)))
                             (payload bad) (Some derr))
                     rest).
  { intros E U zero Hacc Hrej.
    exists (errored rest f (payload bad)
                    (fst (U (payload bad) (settle U zero good))) derr closer).
    repeat split.
    - apply (bad_line f closer rest Hpre Hbad Hne Hacc Hrej).
    - intros m. apply (advances_terminal U m). left. discriminate. }
  split; intros U Hacc Hrej.
  - apply stopsAt_refines with (1 := ErrorStream_refines U). rewrite absError_New.
    now apply G.
  - apply stopsAt_refines with (1 := AuditStream_refines U). rewrite absAudit_New.
    now apply G.
Qed.

(** A valid event, then a line that is not JSON, then one more event
    that is never reached. *)
Lemma C2_witness_not_json :
  stopsAt (ErrorIterator Example.UnmarshalErrorEvent)
          (NewErrorStream
             (io.mkReader
                (io.mkSource
                   (flat_map wire [mkLine (Example.messageLine "disk full") true]
                      ++ wire (mkLine (Example.text "not json") false)
                      ++ wire (mkLine (Example.messageLine "late") false))
                   io_EOF)
                None))
          2
          [mkSeen true {| Message := "disk full" |}
                  (Example.messageLine "disk full") None]
          (mkSeen false {| Message := "disk full" |} (Example.text "not json")
                  (Some Example.syntaxError))
          (wire (mkLine (Example.messageLine "late") false)).
Proof.
  refine (proj1 (@C2_first_bad_line_stops
                   [mkLine (Example.messageLine "disk full") true]
                   (mkLine (Example.text "not json") false)
                   (wire (mkLine (Example.messageLine "late") false))
                   io_EOF None Example.syntaxError _ _ _)
                Example.UnmarshalErrorEvent _ _).
  - apply Forall_okLineb. vm_compute. reflexivity.
  - apply okLineb_sound. vm_compute. reflexivity.
  - discriminate.
  - intros p Hp ev. vm_compute in Hp. destruct Hp as [<-|[]]. reflexivity.
  - intros ev. reflexivity.
Defined.

(** C2 as stated fails when the bad line is too long for the scanner:
    the only line of the source below is rejected by the decoder, yet the
    sticky error after the negative advance is the scanner's own and not
    the decode error. *)
Lemma C2_counterexample_oversized_bad_line :
  let ls := [mkLine Example.longGarbage false] in
  let s0 := NewErrorStream (io.mkReader (io.mkSource (render ls []) io_EOF) None) in
  let U := Example.UnmarshalErrorEvent in
  contents ls [] = [Example.longGarbage] /\
  bufio.IndexByte Example.longGarbage LF = None /\
  snd (U Example.longGarbage zeroErrorEvent) = Some Example.syntaxError /\
  fst (ErrorStream.Next U s0) = false /\
  ErrorStream.Err (snd (ErrorStream.Next U s0)) = Some bufio_ErrTooLong /\
  ErrorStream.Err (snd (ErrorStream.Next U s0)) <>
    snd (U Example.longGarbage zeroErrorEvent).
Proof.
  repeat split; try (vm_compute; reflexivity).
  vm_compute. discriminate.
Qed.

(** ** C3: terminal states absorb *)

(** C3.  In a stream whose sticky error is set or whose closed flag is
    set, any number of advances all return false and leave the whole
    state (scanner, event, sticky error, closer, closed flag) as it was. *)
Theorem C3_terminal_states_absorb :
  (forall (U : json.Unmarshaler ErrorEvent) (s : ErrorStream.t) (n : nat),
     ErrorStream.Err s <> None \/ ErrorStream.closed s = true ->
     advances (ErrorIterator U) n s =
     (repeat (mkSeen false (ErrorStream.Event s) (ErrorStream.Bytes s)
                     (ErrorStream.Err s)) n, s)) /\
  (forall (U : json.Unmarshaler AuditEvent) (s : AuditStream.t) (n : nat),
     AuditStream.Err s <> None \/ AuditStream.closed s = true ->
     advances (AuditIterator U) n s =
     (repeat (mkSeen false (AuditStream.Event s) (AuditStream.Bytes s)
                     (AuditStream.Err s)) n, s)).
Proof.
  split; intros U s n H.
  - apply (advances_back (ErrorStream_refines U)).
    apply (advances_terminal U n (absError s)). exact H.
  - apply (advances_back (AuditStream_refines U)).
    apply (advances_terminal U n (absAudit s)). exact H.
Qed.

Lemma C3_witness_closed_stream :
  let s := snd (ErrorStream.Close
                  (NewErrorStream
                     (io.mkReader (io.mkSource (render Example.twoEvents []) io_EOF)
                                  (Some Example.quietCloser)))) in
  advances (ErrorIterator Example.UnmarshalErrorEvent) 2 s =
  ([mkSeen false zeroErrorEvent [] None; mkSeen false zeroErrorEvent [] None], s).
Proof.
  intros s.
  exact (proj1 C3_terminal_states_absorb Example.UnmarshalErrorEvent s 2
               (or_intror eq_refl)).
Defined.

(** ** C4: closing before the first advance *)

(** With a closable source the stream is closed by [Close], and every
    advance after it is negative without a sticky error. *)
Lemma close_first_closable (src : io.Source) (c : io.Closer) :
  (forall (U : json.Unmarshaler ErrorEvent) (n : nat),
     let s := snd (ErrorStream.Close (NewErrorStream (io.mkReader src (Some c)))) in
     advances (ErrorIterator U) n s =
     (repeat (mkSeen false zeroErrorEvent [] None) n, s)) /\
  (forall (U : json.Unmarshaler AuditEvent) (n : nat),
     let s := snd (AuditStream.Close (NewAuditStream (io.mkReader src (Some c)))) in
     advances (AuditIterator U) n s =
     (repeat (mkSeen false zeroAuditEvent [] None) n, s)).
Proof.
  split; intros U n s.
  - apply (advances_back (ErrorStream_refines U)).
    rewrite (advances_terminal U n (absError s)).
    + unfold s, ErrorStream.Close, NewErrorStream. simpl. destruct (c src). reflexivity.
    + right. unfold s, ErrorStream.Close, NewErrorStream. simpl. now destruct (c src).
  - apply (advances_back (AuditStream_refines U)).
    rewrite (advances_terminal U n (absAudit s)).
    + unfold s, AuditStream.Close, NewAuditStream. simpl. destruct (c src). reflexivity.
    + right. unfold s, AuditStream.Close, NewAuditStream. simpl. now destruct (c src).
Qed.

(** C4 at a source that cannot be closed.  [Close] returns nil and
    leaves the closed flag unset, and the advance that follows is
    positive and delivers the event of the first line. *)
Theorem C4_close_without_closer_keeps_iterating :
  let r := io.mkReader
             (io.mkSource (wire (mkLine (Example.messageLine "x") false)) io_EOF)
             None in
  let s := snd (ErrorStream.Close (NewErrorStream r)) in
  let U := Example.UnmarshalErrorEvent in
  fst (ErrorStream.Close (NewErrorStream r)) = None /\
  ErrorStream.closed s = false /\
  fst (ErrorStream.Next U s) = true /\
  ErrorStream.Event (snd (ErrorStream.Next U s)) = {| Message := "x" |} /\
  (let s' := snd (AuditStream.Close (NewAuditStream
                 (io.mkReader
                    (io.mkSource (wire (mkLine (Example.pathLine "/v1/key") false))
                                 io_EOF) None))) in
   AuditStream.closed s' = false /\
   fst (AuditStream.Next Example.UnmarshalAuditEvent s') = true).
Proof. repeat split; vm_compute; reflexivity. Qed.

(** ** C5: closing a source that cannot be closed *)

(** C5.  When no closer is bound, any number of [Close] calls all return
    nil and leave the whole state as it was; and a stream made from a
    reader that cannot be closed has no closer bound, whatever advance
    and close calls came before. *)
Theorem C5_close_without_closer_is_noop :
  (forall (U : json.Unmarshaler ErrorEvent) (s : ErrorStream.t) (n : nat),
     ErrorStream.closer s = None ->
     closes (ErrorIterator U) n s = (repeat None n, s)) /\
  (forall (U : json.Unmarshaler AuditEvent) (s : AuditStream.t) (n : nat),
     AuditStream.closer s = None ->
     closes (AuditIterator U) n s = (repeat None n, s)) /\
  (forall (U : json.Unmarshaler ErrorEvent) (r : io.Reader) (ops : list Op) (n : nat),
     io.asCloser r = None ->
     let s := snd (run (ErrorIterator U) ops (NewErrorStream r)) in
     closes (ErrorIterator U) n s = (repeat None n, s)) /\
  (forall (U : json.Unmarshaler AuditEvent) (r : io.Reader) (ops : list Op) (n : nat),
     io.asCloser r = None ->
     let s := snd (run (AuditIterator U) ops (NewAuditStream r)) in
     closes (AuditIterator U) n s = (repeat None n, s)).
Proof.
  assert (HE : forall (U : json.Unmarshaler ErrorEvent) s n,
             ErrorStream.closer s = None ->
             closes (ErrorIterator U) n s = (repeat None n, s)).
  { intros U s n H. apply (closes_back (ErrorStream_refines U)).
    apply (closes_noop U n (absError s)). exact H. }
  assert (HA : forall (U : json.Unmarshaler AuditEvent) s n,
             AuditStream.closer s = None ->
             closes (AuditIterator U) n s = (repeat None n, s)).
  { intros U s n H. apply (closes_back (AuditStream_refines U)).
    apply (closes_noop U n (absAudit s)). exact H. }
  repeat split; try assumption.
  - intros U r ops n Hr s. apply HE. unfold s.
    pose proof (run_refines (ErrorStream_refines U) ops (NewErrorStream r)) as H.
    pose proof (run_closer U ops (absError (NewErrorStream r))) as Hc.
    rewrite H in Hc. cbn [snd] in Hc. rewrite absError_New in Hc.
    exact (eq_trans Hc Hr).
  - intros U r ops n Hr s. apply HA. unfold s.
    pose proof (run_refines (AuditStream_refines U) ops (NewAuditStream r)) as H.
    pose proof (run_closer U ops (absAudit (NewAuditStream r))) as Hc.
    rewrite H in Hc. cbn [snd] in Hc. rewrite absAudit_New in Hc.
    exact (eq_trans Hc Hr).
Qed.

Lemma C5_witness_plain_reader :
  let s := snd (run (ErrorIterator Example.UnmarshalErrorEvent) [OpNext; OpClose]
                    (NewErrorStream
                       (io.mkReader
                          (io.mkSource (render Example.twoEvents []) io_EOF) None))) in
  closes (ErrorIterator Example.UnmarshalErrorEvent) 3 s = ([None; None; None], s).
Proof.
  exact (proj1 (proj2 (proj2 C5_close_without_closer_is_noop))
               Example.UnmarshalErrorEvent
               (io.mkReader (io.mkSource (render Example.twoEvents []) io_EOF) None)
               [OpNext; OpClose] 3 eq_refl).
Defined.

(** ** C6: the result of Close and the sticky error are separate *)

(** C6.  [Close] leaves the sticky error and the event as they were and
    returns what the closer returned (nil when none is bound); and over
    any sequence of advance and close calls, what the advances show
    (their results, events, raw bytes and sticky errors) does not depend
    on what the closer returns. *)
Theorem C6_close_error_stays_out_of_Err :
  (forall s : ErrorStream.t,
     ErrorStream.Err (snd (ErrorStream.Close s)) = ErrorStream.Err s /\
     ErrorStream.Event (snd (ErrorStream.Close s)) = ErrorStream.Event s /\
     fst (ErrorStream.Close s) =
       match ErrorStream.closer s with
       | Some c => snd (c (bufio.src (ErrorStream.scanner s)))
       | None => None
       end) /\
  (forall s : AuditStream.t,
     AuditStream.Err (snd (AuditStream.Close s)) = AuditStream.Err s /\
     AuditStream.Event (snd (AuditStream.Close s)) = AuditStream.Event s /\
     fst (AuditStream.Close s) =
       match AuditStream.closer s with
       | Some c => snd (c (bufio.src (AuditStream.scanner s)))
       | None => None
       end) /\
  (forall (U : json.Unmarshaler ErrorEvent) (src : io.Source)
          (c1 c2 : io.Closer) (ops : list Op),
     sameEffect c1 c2 ->
     nextsOnly (fst (run (ErrorIterator U) ops
                         (NewErrorStream (io.mkReader src (Some c1))))) =
     nextsOnly (fst (run (ErrorIterator U) ops
                         (NewErrorStream (io.mkReader src (Some c2)))))) /\
  (forall (U : json.Unmarshaler AuditEvent) (src : io.Source)
          (c1 c2 : io.Closer) (ops : list Op),
     sameEffect c1 c2 ->
     nextsOnly (fst (run (AuditIterator U) ops
                         (NewAuditStream (io.mkReader src (Some c1))))) =
     nextsOnly (fst (run (AuditIterator U) ops
                         (NewAuditStream (io.mkReader src (Some c2)))))).
Proof.
  assert (G : forall (E : Type) (U : json.Unmarshaler E) (zero : E) src c1 c2 ops,
             sameEffect c1 c2 ->
             nextsOnly (fst (run (LineIterator U) ops
                                 (LineStream.New zero (io.mkReader src (Some c1))))) =
             nextsOnly (fst (run (LineIterator U) ops
                                 (LineStream.New zero (io.mkReader src (Some c2)))))).
  { intros E U zero src c1 c2 ops H. apply run_alike.
    unfold alike, LineStream.New. simpl. auto. }
  repeat split.
  - destruct s as [sc ev e [c|] cl]; unfold ErrorStream.Close; simpl;
      [destruct (c (bufio.src sc))|]; reflexivity.
  - destruct s as [sc ev e [c|] cl]; unfold ErrorStream.Close; simpl;
      [destruct (c (bufio.src sc))|]; reflexivity.
  - destruct s as [sc ev e [c|] cl]; unfold ErrorStream.Close; simpl;
      [destruct (c (bufio.src sc))|]; reflexivity.
  - destruct s as [sc ev e [c|] cl]; unfold AuditStream.Close; simpl;
      [destruct (c (bufio.src sc))|]; reflexivity.
  - destruct s as [sc ev e [c|] cl]; unfold AuditStream.Close; simpl;
      [destruct (c (bufio.src sc))|]; reflexivity.
  - destruct s as [sc ev e [c|] cl]; unfold AuditStream.Close; simpl;
      [destruct (c (bufio.src sc))|]; reflexivity.
  - intros U src c1 c2 ops H.
    pose proof (run_refines (ErrorStream_refines U) ops
                  (NewErrorStream (io.mkReader src (Some c1)))) as H1.
    pose proof (run_refines (ErrorStream_refines U) ops
                  (NewErrorStream (io.mkReader src (Some c2)))) as H2.
    rewrite absError_New in H1, H2.
    pose proof (G _ U zeroErrorEvent src c1 c2 ops H) as HG.
    rewrite H1, H2 in HG. exact HG.
  - intros U src c1 c2 ops H.
    pose proof (run_refines (AuditStream_refines U) ops
                  (NewAuditStream (io.mkReader src (Some c1)))) as H1.
    pose proof (run_refines (AuditStream_refines U) ops
                  (NewAuditStream (io.mkReader src (Some c2)))) as H2.
    rewrite absAudit_New in H1, H2.
    pose proof (G _ U zeroAuditEvent src c1 c2 ops H) as HG.
    rewrite H1, H2 in HG. exact HG.
Qed.

(** A closer that fails and one that does not, on the same run. *)
Lemma C6_witness_failing_closer :
  let run_with c :=
    fst (run (ErrorIterator Example.UnmarshalErrorEvent) [OpNext; OpClose; OpNext]
             (NewErrorStream
                (io.mkReader (io.mkSource (render Example.twoEvents []) io_EOF)
                             (Some c)))) in
  nextsOnly (run_with Example.failingCloser) =
  nextsOnly (run_with Example.quietCloser).
Proof.
  intros run_with.
  refine (proj1 (proj2 (proj2 C6_close_error_stays_out_of_Err))
                Example.UnmarshalErrorEvent
                (io.mkSource (render Example.twoEvents []) io_EOF)
                Example.failingCloser Example.quietCloser
                [OpNext; OpClose; OpNext] _).
  intros r. reflexivity.
Defined.

(** ** C7: nothing is recorded once the stream is closed *)

(** C7.  When the closed flag is set, the body of [Next] (its loop and
    the decoding, where read failures, the end of the data and decode
    failures are met) leaves the sticky error as it was; and so does any
    sequence of advance and close calls, after which the stream is still
    closed.  A sticky error that was none when the stream was closed is
    therefore none in every state reached afterwards. *)
Theorem C7_closed_stream_records_no_error :
  (forall (U : json.Unmarshaler ErrorEvent) (s : ErrorStream.t),
     ErrorStream.closed s = true ->
     ErrorStream.Err (snd (ErrorStream.scanAndDecode U s)) = ErrorStream.Err s /\
     forall ops,
       ErrorStream.Err (snd (run (ErrorIterator U) ops s)) = ErrorStream.Err s /\
       ErrorStream.closed (snd (run (ErrorIterator U) ops s)) = true) /\
  (forall (U : json.Unmarshaler AuditEvent) (s : AuditStream.t),
     AuditStream.closed s = true ->
     AuditStream.Err (snd (AuditStream.scanAndDecode U s)) = AuditStream.Err s /\
     forall ops,
       AuditStream.Err (snd (run (AuditIterator U) ops s)) = AuditStream.Err s /\
       AuditStream.closed (snd (run (AuditIterator U) ops s)) = true).
Proof.
  split; intros U s Hc; split.
  - now apply ErrorStream_scanAndDecode_closed.
  - intros ops.
    pose proof (run_refines (ErrorStream_refines U) ops s) as H.
    destruct (closed_frame U ops (absError s) Hc) as (H1 & _ & H3).
    rewrite H in H1, H3. simpl in H1, H3. auto.
  - now apply AuditStream_scanAndDecode_closed.
  - intros ops.
    pose proof (run_refines (AuditStream_refines U) ops s) as H.
    destruct (closed_frame U ops (absAudit s) Hc) as (H1 & _ & H3).
    rewrite H in H1, H3. simpl in H1, H3. auto.
Qed.

(** A stream closed while its source still holds a line that does not
    decode: neither the body of [Next] nor later calls record an error. *)
Lemma C7_witness_closed_over_bad_line :
  let s := snd (ErrorStream.Close
                  (NewErrorStream
                     (io.mkReader
                        (io.mkSource (wire (mkLine (Example.text "not json") false))
                                     io_EOF)
                        (Some (fun r => (r, None)))))) in
  ErrorStream.Err (snd (ErrorStream.scanAndDecode Example.UnmarshalErrorEvent s)) = None /\
  forall ops,
    ErrorStream.Err (snd (run (ErrorIterator Example.UnmarshalErrorEvent) ops s)) = None /\
    ErrorStream.closed (snd (run (ErrorIterator Example.UnmarshalErrorEvent) ops s)) = true.
Proof.
  intros s.
  exact (proj1 C7_closed_stream_records_no_error Example.UnmarshalErrorEvent s eq_refl).
Defined.

(** ** C8: the raw bytes of the line *)

(** C8.  When the scanner's input starts with empty lines followed by a
    non-empty line, and the advance succeeds, [Bytes] is that line's
    content: neither its terminator nor anything of the empty lines. *)
Theorem C8_bytes_are_the_line
        (blanks : list Line) (l : Line) (rest : bytes) :
  Forall (fun b => payload b = []) blanks -> plain l -> payload l <> [] ->
  (forall (U : json.Unmarshaler ErrorEvent) (s s' : ErrorStream.t),
     position (ErrorIterator U) s = flat_map wire blanks ++ wire l ++ rest ->
     ErrorStream.Next U s = (true, s') ->
     ErrorStream.Bytes s' = payload l) /\
  (forall (U : json.Unmarshaler AuditEvent) (s s' : AuditStream.t),
     position (AuditIterator U) s = flat_map wire blanks ++ wire l ++ rest ->
     AuditStream.Next U s = (true, s') ->
     AuditStream.Bytes s' = payload l).
Proof.
  intros Hbl Hp Hne. split; intros U s s' Hpos HN.
  - apply (next_forth (ErrorStream_refines U)) in HN. apply Next_true in HN.
    exact (nextLine_token rest Hbl Hp Hne _ Hpos HN).
  - apply (next_forth (AuditStream_refines U)) in HN. apply Next_true in HN.
    exact (nextLine_token rest Hbl Hp Hne _ Hpos HN).
Qed.

(** After advancing to the line [{"message":"x"}], behind two empty
    lines, [Bytes] is exactly that line. *)
Lemma C8_witness_message_x :
  let s := NewErrorStream
             (io.mkReader
                (io.mkSource
                   (flat_map wire [mkLine [] false; mkLine [] true]
                      ++ wire (mkLine (Example.messageLine "x") false)
                      ++ Example.text "more")
                   io_EOF)
                None) in
  ErrorStream.Bytes (snd (ErrorStream.Next Example.UnmarshalErrorEvent s)) =
  Example.messageLine "x".
Proof.
  intros s.
  refine (proj1 (@C8_bytes_are_the_line
                   [mkLine [] false; mkLine [] true]
                   (mkLine (Example.messageLine "x") false)
                   (Example.text "more") _ _ _)
                Example.UnmarshalErrorEvent s _ eq_refl _).
  - repeat constructor.
  - split; [|intros _]; vm_compute; intuition discriminate.
  - discriminate.
  - vm_compute. reflexivity.
Defined.

(** ** C9: one machine for both record types *)

(** C9.  Run from states that agree on the scanner, the sticky error, the
    closer and the closed flag, with decoders that fail on the same lines
    with the same errors, an error stream and an audit stream give, for
    every sequence of advance and close calls, the same results, raw
    bytes, sticky errors and close results, and end in states that agree
    again; so they consume the same input. *)
Theorem C9_streams_run_in_lockstep
        (UE : json.Unmarshaler ErrorEvent) (UA : json.Unmarshaler AuditEvent) :
  sameErrors UE UA ->
  forall (ops : list Op) (sE : ErrorStream.t) (sA : AuditStream.t),
    sameMachine sE sA ->
    map (@shape ErrorEvent) (fst (run (ErrorIterator UE) ops sE)) =
    map (@shape AuditEvent) (fst (run (AuditIterator UA) ops sA)) /\
    sameMachine (snd (run (ErrorIterator UE) ops sE))
                (snd (run (AuditIterator UA) ops sA)).
Proof.
  intros HU ops sE sA Hs.
  pose proof (run_refines (ErrorStream_refines UE) ops sE) as HE.
  pose proof (run_refines (AuditStream_refines UA) ops sA) as HA.
  destruct (run_twin HU ops (s1 := absError sE) (s2 := absAudit sA) Hs) as [H1 H2].
  rewrite HE, HA in H1, H2. simpl in H1, H2. split; assumption.
Qed.

Lemma C9_witness_same_input :
  let r := io.mkReader
             (io.mkSource (render Example.twoEvents (Example.text "not json")) io_EOF)
             (Some Example.failingCloser) in
  let ops := [OpNext; OpNext; OpNext; OpClose; OpNext] in
  map (@shape ErrorEvent)
      (fst (run (ErrorIterator Example.UnmarshalErrorEvent) ops (NewErrorStream r))) =
  map (@shape AuditEvent)
      (fst (run (AuditIterator validating) ops (NewAuditStream r))) /\
  sameMachine (snd (run (ErrorIterator Example.UnmarshalErrorEvent) ops (NewErrorStream r)))
              (snd (run (AuditIterator validating) ops (NewAuditStream r))).
Proof.
  intros r ops.
  refine (@C9_streams_run_in_lockstep Example.UnmarshalErrorEvent validating _
            ops (NewErrorStream r) (NewAuditStream r) _).
  - intros line e1 e2. unfold validating, Example.UnmarshalErrorEvent.
    destruct (Example.between _ _ line); reflexivity.
  - repeat split.
Defined.

(** ** C10: after a clean end of data *)

(** C10.  When an advance returned false and left the sticky error none
    and the closed flag unset, every later advance returns false as well,
    keeps the sticky error none and changes nothing. *)
Theorem C10_clean_end_is_stable :
  (forall (U : json.Unmarshaler ErrorEvent) (s s' : ErrorStream.t),
     ErrorStream.Next U s = (false, s') ->
     ErrorStream.Err s' = None -> ErrorStream.closed s' = false ->
     forall n,
       advances (ErrorIterator U) n s' =
       (repeat (mkSeen false (ErrorStream.Event s') [] None) n, s')) /\
  (forall (U : json.Unmarshaler AuditEvent) (s s' : AuditStream.t),
     AuditStream.Next U s = (false, s') ->
     AuditStream.Err s' = None -> AuditStream.closed s' = false ->
     forall n,
       advances (AuditIterator U) n s' =
       (repeat (mkSeen false (AuditStream.Event s') [] None) n, s')).
Proof.
  assert (G : forall (E : Type) (U : json.Unmarshaler E) (t t' : LineStream.t E),
             LineStream.Next U t = (false, t') ->
             LineStream.err t' = None -> LineStream.closed t' = false ->
             forall n,
               advances (LineIterator U) n t' =
               (repeat (mkSeen false (LineStream.event t') [] None) n, t')).
  { intros E U t t' HN He Hc n.
    pose proof (Next_clean_end U t HN He Hc) as Hfix.
    pose proof (Next_clean_end_bytes U t HN He Hc) as Hb.
    induction n as [|n IH]; simpl; [reflexivity|].
    rewrite Hfix, IH. unfold look. simpl. rewrite Hb, He. reflexivity. }
  split; intros U s s' HN He Hc n.
  - apply (advances_back (ErrorStream_refines U)).
    apply (next_forth (ErrorStream_refines U)) in HN.
    exact (G _ U _ _ HN He Hc n).
  - apply (advances_back (AuditStream_refines U)).
    apply (next_forth (AuditStream_refines U)) in HN.
    exact (G _ U _ _ HN He Hc n).
Qed.

Lemma C10_witness_after_last_event :
  let U := Example.UnmarshalErrorEvent in
  let s := snd (advances (ErrorIterator U) 2
                  (NewErrorStream
                     (io.mkReader (io.mkSource (render Example.twoEvents []) io_EOF)
                                  None))) in
  let s' := snd (ErrorStream.Next U s) in
  advances (ErrorIterator U) 3 s' =
  (repeat (mkSeen false {| Message := "timeout" |} [] None) 3, s').
Proof.
  intros U s s'.
  exact (proj1 C10_clean_end_is_stable U s s' eq_refl eq_refl eq_refl 3).
Defined.

(** * Further properties of the streams *)

(** ** The generic machine, continued *)

Section LineStream_further.

Variable E : Type.
Variable U : json.Unmarshaler E.

Lemma nextLine_shrinks sc sc' :
  LineStream.nextLine sc = (true, sc') ->
  length (io.pending (bufio.src sc')) < length (io.pending (bufio.src sc)).
Proof.
  remember (length (io.pending (bufio.src sc))) as n eqn:Hn.
  revert sc Hn. induction n as [n IH] using lt_wf_ind. intros sc Hn.
  rewrite readLine_facts.nextLine_unfold.
  destruct (bufio.Scan sc) as [[|] sc1] eqn:Hs; [|discriminate].
  pose proof (bufio_facts.Scan_true_shrinks _ Hs) as Hlt.
  destruct (bufio.Bytes sc1).
  - intros H. subst n.
    specialize (IH _ Hlt sc1 eq_refl H). lia.
  - intros H. injection H as <-. lia.
Qed.

Lemma Next_true_shrinks (s s' : LineStream.t E) :
  LineStream.Next U s = (true, s') ->
  length (io.pending (bufio.src (LineStream.scanner s'))) <
  length (io.pending (bufio.src (LineStream.scanner s))).
Proof. intros H. apply nextLine_shrinks. now apply (Next_true U). Qed.

Lemma nextLine_nonempty sc sc' :
  LineStream.nextLine sc = (true, sc') -> bufio.Bytes sc' <> [].
Proof.
  unfold LineStream.nextLine.
  generalize (Datatypes.S (length (io.pending (bufio.src sc)))). intros f.
  revert sc. induction f as [|f IH]; simpl; intros sc; [discriminate|].
  destruct (bufio.Scan sc) as [[|] sc1]; [|discriminate].
  destruct (bufio.Bytes sc1) eqn:Hb; [apply IH|].
  intros H. injection H as <-. congruence.
Qed.

(** A positive advance has decoded the raw bytes it shows. *)
Lemma Next_true_sync (s s' : LineStream.t E) :
  LineStream.Next U s = (true, s') ->
  bufio.Bytes (LineStream.scanner s') <> [] /\
  U (bufio.Bytes (LineStream.scanner s')) (LineStream.event s) =
    (LineStream.event s', None) /\
  LineStream.err s' = None /\ LineStream.closed s' = false.
Proof.
  unfold LineStream.Next.
  destruct (LineStream.err s) eqn:He; [discriminate|].
  destruct (LineStream.closed s) eqn:Hc; [discriminate|].
  destruct (LineStream.nextLine (LineStream.scanner s)) as [[|] sc] eqn:Hn;
    [|discriminate].
  destruct (U (bufio.Bytes sc) (LineStream.event s)) as [ev [e|]] eqn:HU;
    [discriminate|].
  intros H. injection H as <-. fields.
  repeat split; try assumption.
  now apply nextLine_nonempty with (LineStream.scanner s).
Qed.

(** A negative advance left the event alone, or it shows the line that
    the decoder rejected, the event as the decoder left it and the
    decoder's error. *)
Lemma Next_false_event (s s' : LineStream.t E) :
  LineStream.Next U s = (false, s') ->
  LineStream.event s' = LineStream.event s \/
  (bufio.Bytes (LineStream.scanner s') <> [] /\
   U (bufio.Bytes (LineStream.scanner s')) (LineStream.event s) =
     (LineStream.event s', LineStream.err s') /\
   LineStream.err s' <> None).
Proof.
  intros H.
  destruct (LineStream.err s) eqn:He.
  { rewrite Next_terminal in H by (left; congruence). injection H as <-. now left. }
  destruct (LineStream.closed s) eqn:Hc.
  { rewrite Next_terminal in H by (now right). injection H as <-. now left. }
  revert H. unfold LineStream.Next. rewrite He, Hc.
  destruct (LineStream.nextLine (LineStream.scanner s)) as [[|] sc] eqn:Hn.
  - pose proof (nextLine_nonempty _ Hn) as Hb.
    destruct (U (bufio.Bytes sc) (LineStream.event s)) as [ev [e|]] eqn:HU;
      [|discriminate].
    unfold LineStream.record. fields. intros H. injection H as <-. fields.
    right. repeat split; [assumption|assumption|discriminate].
  - unfold LineStream.record. fields. intros H. injection H as <-. now left.
Qed.

(** Once an advance returned false the stream is a fixed point of
    advance. *)
Lemma Next_false_stays (s s' : LineStream.t E) :
  LineStream.Next U s = (false, s') ->
  forall n,
    advances (LineIterator U) n s' =
    (repeat (look (LineIterator U) false s') n, s').
Proof.
  intros H n.
  destruct (LineStream.err s') eqn:He.
  { apply advances_terminal. left. congruence. }
  destruct (LineStream.closed s') eqn:Hc.
  { apply advances_terminal. now right. }
  pose proof (Next_clean_end U s H He Hc) as Hfix.
  induction n as [|n IH]; simpl; [reflexivity|].
  rewrite Hfix, IH. reflexivity.
Qed.

(** The advances run out before the input does. *)
Lemma eventually_false (s : LineStream.t E) :
  exists k,
    k <= length (io.pending (bufio.src (LineStream.scanner s))) /\
    fst (LineStream.Next U (snd (advances (LineIterator U) k s))) = false.
Proof.
  remember (length (io.pending (bufio.src (LineStream.scanner s)))) as n eqn:Hn.
  revert s Hn. induction n as [n IH] using lt_wf_ind. intros s Hn.
  destruct (LineStream.Next U s) as [[|] s1] eqn:HN.
  - pose proof (Next_true_shrinks _ HN) as Hlt. rewrite <- Hn in Hlt.
    destruct (IH _ Hlt s1 eq_refl) as (k & Hk & Hf).
    exists (Datatypes.S k). split; [lia|].
    simpl. rewrite HN.
    destruct (advances (LineIterator U) k s1) as [l s2]. exact Hf.
  - exists 0. split; [lia|]. simpl. now rewrite HN.
Qed.

Lemma allNegative_cons_next (x : Seen E) outs :
  more x = false -> allNegative outs -> allNegative (NextOut x :: outs).
Proof. intros Hx H. unfold allNegative in *. simpl. now constructor. Qed.

Lemma allNegative_cons_close e (outs : list (Out E)) :
  allNegative outs -> allNegative (CloseOut E e :: outs).
Proof. intros H. exact H. Qed.

(** A sticky error is never replaced: every later advance is negative
    and neither the error nor the event changes. *)
Lemma sticky_frame ops : forall (s : LineStream.t E) e,
  LineStream.err s = Some e ->
  allNegative (fst (run (LineIterator U) ops s)) /\
  LineStream.err (snd (run (LineIterator U) ops s)) = Some e /\
  LineStream.event (snd (run (LineIterator U) ops s)) = LineStream.event s.
Proof.
  induction ops as [|o ops IH]; intros s e He; simpl.
  - repeat split; [constructor|assumption].
  - destruct o; simpl.
    + rewrite Next_terminal by (left; congruence).
      destruct (IH s e He) as (H1 & H2 & H3).
      destruct (run (LineIterator U) ops s) as [l s2]. simpl in *.
      repeat split; try assumption. now apply allNegative_cons_next.
    + destruct (Close_frame s) as (H1 & H2 & _).
      destruct (LineStream.Close s) as [x s1]. simpl in *.
      assert (He1 : LineStream.err s1 = Some e) by congruence.
      destruct (IH s1 e He1) as (H3 & H4 & H5).
      destruct (run (LineIterator U) ops s1) as [l s2]. simpl in *.
      repeat split; try assumption; congruence.
Qed.

(** After the stream was closed every advance is negative. *)
Lemma closed_allNegative ops : forall s : LineStream.t E,
  LineStream.closed s = true ->
  allNegative (fst (run (LineIterator U) ops s)).
Proof.
  induction ops as [|o ops IH]; intros s Hc; simpl; [constructor|].
  destruct o; simpl.
  - rewrite Next_terminal by (now right).
    specialize (IH s Hc).
    destruct (run (LineIterator U) ops s) as [l s2]. simpl in *.
    now apply allNegative_cons_next.
  - pose proof (Close_closed s Hc) as Hc1.
    destruct (LineStream.Close s) as [x s1]. simpl in *.
    specialize (IH s1 Hc1).
    destruct (run (LineIterator U) ops s1) as [l s2]. exact IH.
Qed.

(** [Close] with a closer bound. *)
Lemma Close_bound (s : LineStream.t E) c :
  LineStream.closer s = Some c ->
  LineStream.closed (snd (LineStream.Close s)) = true /\
  fst (LineStream.Close s) = snd (c (bufio.src (LineStream.scanner s))).
Proof.
  intros H. unfold LineStream.Close. rewrite H.
  destruct (c _). auto.
Qed.

(** The sticky error is never [io_EOF]. *)
Lemma Err_io_EOF_bufio sc : bufio.Err sc <> Some io_EOF.
Proof.
  unfold bufio.Err. destruct (bufio.err sc) as [[| |m]|]; discriminate.
Qed.

Lemma never_EOF ops :
  (forall line ev, snd (U line ev) <> Some io_EOF) ->
  forall s : LineStream.t E,
    LineStream.err s <> Some io_EOF ->
    LineStream.err (snd (run (LineIterator U) ops s)) <> Some io_EOF.
Proof.
  intros HU. induction ops as [|o ops IH]; intros s Hs; simpl; [assumption|].
  destruct o; simpl.
  - assert (H1 : LineStream.err (snd (LineStream.Next U s)) <> Some io_EOF).
    { unfold LineStream.Next.
      destruct (LineStream.err s) eqn:He; [simpl; congruence|].
      destruct (LineStream.closed s) eqn:Hc; [simpl; congruence|].
      destruct (LineStream.nextLine (LineStream.scanner s)) as [[|] sc].
      - specialize (HU (bufio.Bytes sc) (LineStream.event s)).
        destruct (U (bufio.Bytes sc) (LineStream.event s)) as [ev [e|]];
          unfold LineStream.record; fields; rewrite ?Hc; simpl in *; congruence.
      - unfold LineStream.record; fields. simpl.
        apply Err_io_EOF_bufio. }
    destruct (LineStream.Next U s) as [b s1]. simpl in *.
    specialize (IH s1 H1). destruct (run (LineIterator U) ops s1). exact IH.
  - destruct (Close_frame s) as (H1 & _).
    destruct (LineStream.Close s) as [x s1]. simpl in *.
    assert (H2 : LineStream.err s1 <> Some io_EOF) by congruence.
    specialize (IH s1 H2). destruct (run (LineIterator U) ops s1). exact IH.
Qed.




(** Every [Close] with a closer bound calls the closer again. *)
Lemma closes_bound n : forall (s : LineStream.t E) c,
  LineStream.closer s = Some c ->
  closes (LineIterator U) (Datatypes.S n) s =
  (fst (closeTimes c (Datatypes.S n) (bufio.src (LineStream.scanner s))),
   LineStream.mk
     (bufio.mkScanner
        (snd (closeTimes c (Datatypes.S n) (bufio.src (LineStream.scanner s))))
        (bufio.token (LineStream.scanner s)) (bufio.err (LineStream.scanner s)))
     (LineStream.event s) (LineStream.err s) (Some c) true).
Proof.
  induction n as [|n IH]; intros s c Hc.
  - simpl. unfold LineStream.Close. rewrite Hc.
    destruct (c (bufio.src (LineStream.scanner s))) as [r e]. reflexivity.
  - change (closes (LineIterator U) (Datatypes.S (Datatypes.S n)) s) with
      (let (e, s1) := LineStream.Close s in
       let (l, s2) := closes (LineIterator U) (Datatypes.S n) s1 in (e :: l, s2)).
    change (closeTimes c (Datatypes.S (Datatypes.S n)) ?r) with
      (let (r1, e) := c r in
       let (l, r2) := closeTimes c (Datatypes.S n) r1 in (e :: l, r2)).
    unfold LineStream.Close. rewrite Hc.
    destruct (c (bufio.src (LineStream.scanner s))) as [r e].
    rewrite (IH _ c) by reflexivity. fields.
    destruct (closeTimes c (Datatypes.S n) r) as [l r2]. reflexivity.
Qed.

End LineStream_further.

Section Transfer_further.

Variables S E : Type.
Variable it : Iterator S E.
Variable U : json.Unmarshaler E.
Variable abs : S -> LineStream.t E.
Hypothesis R : Refines it U abs.

Lemma run_fst ops s :
  fst (run it ops s) = fst (run (LineIterator U) ops (abs s)).
Proof. now rewrite (run_refines R). Qed.

Lemma run_snd ops s :
  abs (snd (run it ops s)) = snd (run (LineIterator U) ops (abs s)).
Proof. now rewrite (run_refines R). Qed.

Lemma advances_snd n s :
  abs (snd (advances it n s)) = snd (advances (LineIterator U) n (abs s)).
Proof. now rewrite (advances_refines R). Qed.

Lemma settlesOn_refines s0 n seen last :
  settlesOn (LineIterator U) (abs s0) n seen last ->
  settlesOn it s0 n seen last.
Proof.
  intros (t & H1 & H2).
  rewrite (advances_refines R) in H1. injection H1 as H1 Ht.
  exists (snd (advances it n s0)). split.
  - destruct (advances it n s0); simpl in *. congruence.
  - intros m. apply (advances_back R). rewrite Ht. apply H2.
Qed.

End Transfer_further.

(** ** X1: a reader that fails *)

(** X1.  When the reader fails with an error [f] other than [io_EOF]
    after its content, the lines that fit and decode are all delivered
    first, the last one also when the failure cut its newline off; the
    next advance is negative, the sticky error is [f], and the stream
    stays there. *)
Theorem X1_read_error_after_lines
        (ls : list Line) (tail : bytes) (closer : option io.Closer) (f : error) :
  f <> io_EOF -> Forall okLine ls -> okTail tail ->
  let r := io.mkReader (io.mkSource (render ls tail) f) closer in
  let ps := contents ls tail in
  (forall U : json.Unmarshaler ErrorEvent, accepts U ps ->
     settlesOn (ErrorIterator U) (NewErrorStream r) (S (length ps))
               (decoded U zeroErrorEvent ps)
               (mkSeen false (settle U zeroErrorEvent ps) [] (Some f))) /\
  (forall U : json.Unmarshaler AuditEvent, accepts U ps ->
     settlesOn (AuditIterator U) (NewAuditStream r) (S (length ps))
               (decoded U zeroAuditEvent ps)
               (mkSeen false (settle U zeroAuditEvent ps) [] (Some f))).
Proof.
  intros Hf Hls Htail r ps.
  assert (Hof : errOf f = Some f) by (destruct f; [congruence|reflexivity..]).
  assert (G : forall (E : Type) (U : json.Unmarshaler E) (zero : E),
             accepts U ps ->
             settlesOn (LineIterator U) (LineStream.New zero r) (S (length ps))
                       (decoded U zero ps)
                       (mkSeen false (settle U zero ps) [] (Some f))).
  { intros E U zero Hacc.
    exists (drained f [] (settle U zero ps) (Some f) closer). split.
    - change (LineStream.New zero r) with (opened (render ls tail) f [] zero closer).
      unfold ps. rewrite (all_lines f closer Hls Htail Hacc), Hof. reflexivity.
    - intros m. apply (advances_terminal U m). left. discriminate. }
  split; intros U Hacc.
  - apply settlesOn_refines with (1 := ErrorStream_refines U).
    rewrite absError_New. now apply G.
  - apply settlesOn_refines with (1 := AuditStream_refines U).
    rewrite absAudit_New. now apply G.
Qed.

Lemma X1_witness_connection_reset :
  settlesOn (ErrorIterator Example.UnmarshalErrorEvent)
            (NewErrorStream
               (io.mkReader
                  (io.mkSource (render Example.twoEvents (Example.messageLine "cut"))
                               (errorString "connection reset"))
                  None))
            4
            [mkSeen true {| Message := "disk full" |}
                    (Example.messageLine "disk full") None;
             mkSeen true {| Message := "timeout" |}
                    (Example.messageLine "timeout") None;
             mkSeen true {| Message := "cut" |} (Example.messageLine "cut") None]
            (mkSeen false {| Message := "cut" |} []
                    (Some (errorString "connection reset"))).
Proof.
  refine (proj1 (@X1_read_error_after_lines Example.twoEvents
                   (Example.messageLine "cut") None
                   (errorString "connection reset") _ _ _)
                Example.UnmarshalErrorEvent _).
  - discriminate.
  - apply Forall_okLineb. vm_compute. reflexivity.
  - split; [split; [|intros _]|]; [| |apply Nat.ltb_lt]; vm_compute;
      intuition discriminate.
  - intros p Hp ev. vm_compute in Hp. destruct Hp as [<-|[<-|[<-|[]]]]; reflexivity.
Defined.

(** ** X2: a line that is too long *)



(** ** X3: what a positive advance shows *)

(** X3.  When [Next] returns true, the raw bytes are not empty, the
    decoder accepted exactly those bytes and the event is what it made
    of them from the event held before; the sticky error is none and the
    stream is not closed. *)
Theorem X3_positive_advance_decoded_bytes :
  (forall (U : json.Unmarshaler ErrorEvent) (s s' : ErrorStream.t),
     ErrorStream.Next U s = (true, s') ->
     ErrorStream.Bytes s' <> [] /\
     U (ErrorStream.Bytes s') (ErrorStream.Event s) = (ErrorStream.Event s', None) /\
     ErrorStream.Err s' = None /\ ErrorStream.closed s' = false) /\
  (forall (U : json.Unmarshaler AuditEvent) (s s' : AuditStream.t),
     AuditStream.Next U s = (true, s') ->
     AuditStream.Bytes s' <> [] /\
     U (AuditStream.Bytes s') (AuditStream.Event s) = (AuditStream.Event s', None) /\
     AuditStream.Err s' = None /\ AuditStream.closed s' = false).
Proof.
  split; intros U s s' HN.
  - apply (next_forth (ErrorStream_refines U)) in HN.
    exact (Next_true_sync U _ HN).
  - apply (next_forth (AuditStream_refines U)) in HN.
    exact (Next_true_sync U _ HN).
Qed.

Lemma X3_witness_path_kept :
  let U := Example.UnmarshalAuditEvent in
  let s := NewAuditStream
             (io.mkReader
                (io.mkSource (wire (mkLine [] true)
                                ++ wire (mkLine (Example.pathLine "/v1/key") true))
                             io_EOF)
                None) in
  let s' := snd (AuditStream.Next U s) in
  AuditStream.Bytes s' <> [] /\
  U (AuditStream.Bytes s') (AuditStream.Event s) = (AuditStream.Event s', None) /\
  AuditStream.Err s' = None /\ AuditStream.closed s' = false.
Proof.
  intros U s s'.
  exact (proj2 X3_positive_advance_decoded_bytes U s s' eq_refl).
Defined.

(** ** X4: what a negative advance does to the event *)

(** X4.  When [Next] returns false, either the event is the one held
    before, or a non-empty line was handed to the decoder, which
    rejected it: then the raw bytes are that line, the event is what the
    decoder left and the sticky error is the decoder's error. *)
Theorem X4_negative_advance_event :
  (forall (U : json.Unmarshaler ErrorEvent) (s s' : ErrorStream.t),
     ErrorStream.Next U s = (false, s') ->
     ErrorStream.Event s' = ErrorStream.Event s \/
     (ErrorStream.Bytes s' <> [] /\
      U (ErrorStream.Bytes s') (ErrorStream.Event s) =
        (ErrorStream.Event s', ErrorStream.Err s') /\
      ErrorStream.Err s' <> None)) /\
  (forall (U : json.Unmarshaler AuditEvent) (s s' : AuditStream.t),
     AuditStream.Next U s = (false, s') ->
     AuditStream.Event s' = AuditStream.Event s \/
     (AuditStream.Bytes s' <> [] /\
      U (AuditStream.Bytes s') (AuditStream.Event s) =
        (AuditStream.Event s', AuditStream.Err s') /\
      AuditStream.Err s' <> None)).
Proof.
  split; intros U s s' HN.
  - apply (next_forth (ErrorStream_refines U)) in HN.
    exact (Next_false_event U _ HN).
  - apply (next_forth (AuditStream_refines U)) in HN.
    exact (Next_false_event U _ HN).
Qed.

Lemma X4_witness_not_json :
  let U := Example.UnmarshalErrorEvent in
  let s := NewErrorStream
             (io.mkReader
                (io.mkSource (wire (mkLine (Example.text "not json") false)) io_EOF)
                None) in
  let s' := snd (ErrorStream.Next U s) in
  ErrorStream.Event s' = ErrorStream.Event s \/
  (ErrorStream.Bytes s' <> [] /\
   U (ErrorStream.Bytes s') (ErrorStream.Event s) =
     (ErrorStream.Event s', ErrorStream.Err s') /\
   ErrorStream.Err s' <> None).
Proof.
  intros U s s'.
  exact (proj1 X4_negative_advance_event U s s' eq_refl).
Defined.

(** ** X5: false is final *)

(** X5.  Whatever made [Next] return false (a sticky error, the closed
    flag, a read failure, the end of the data or a decode failure),
    every later [Next] returns false too and changes nothing. *)
Theorem X5_false_is_final :
  (forall (U : json.Unmarshaler ErrorEvent) (s s' : ErrorStream.t),
     ErrorStream.Next U s = (false, s') ->
     forall n,
       advances (ErrorIterator U) n s' =
       (repeat (mkSeen false (ErrorStream.Event s') (ErrorStream.Bytes s')
                       (ErrorStream.Err s')) n, s')) /\
  (forall (U : json.Unmarshaler AuditEvent) (s s' : AuditStream.t),
     AuditStream.Next U s = (false, s') ->
     forall n,
       advances (AuditIterator U) n s' =
       (repeat (mkSeen false (AuditStream.Event s') (AuditStream.Bytes s')
                       (AuditStream.Err s')) n, s')).
Proof.
  split; intros U s s' HN n.
  - apply (advances_back (ErrorStream_refines U)).
    apply (next_forth (ErrorStream_refines U)) in HN.
    exact (Next_false_stays U _ HN n).
  - apply (advances_back (AuditStream_refines U)).
    apply (next_forth (AuditStream_refines U)) in HN.
    exact (Next_false_stays U _ HN n).
Qed.

Lemma X5_witness_after_read_error :
  let U := Example.UnmarshalErrorEvent in
  let s := NewErrorStream
             (io.mkReader
                (io.mkSource [] (errorString "connection reset")) None) in
  let s' := snd (ErrorStream.Next U s) in
  advances (ErrorIterator U) 2 s' =
  (repeat (mkSeen false zeroErrorEvent []
                  (Some (errorString "connection reset"))) 2, s').
Proof.
  intros U s s'.
  exact (proj1 X5_false_is_final U s s' eq_refl 2).
Defined.

(** ** X6: the advances run out *)

(** X6.  From any state, fewer positive advances can follow than the
    scanner has bytes left to consume: within that many calls [Next]
    returns false. *)
Theorem X6_advances_run_out :
  (forall (U : json.Unmarshaler ErrorEvent) (s : ErrorStream.t),
     exists k,
       k <= length (position (ErrorIterator U) s) /\
       fst (ErrorStream.Next U (snd (advances (ErrorIterator U) k s))) = false) /\
  (forall (U : json.Unmarshaler AuditEvent) (s : AuditStream.t),
     exists k,
       k <= length (position (AuditIterator U) s) /\
       fst (AuditStream.Next U (snd (advances (AuditIterator U) k s))) = false).
Proof.
  split; intros U s.
  - destruct (eventually_false U (absError s)) as (k & Hk & Hf).
    exists k. split; [exact Hk|].
    rewrite <- (advances_snd (ErrorStream_refines U)) in Hf.
    rewrite (ref_next (ErrorStream_refines U)) in Hf. exact Hf.
  - destruct (eventually_false U (absAudit s)) as (k & Hk & Hf).
    exists k. split; [exact Hk|].
    rewrite <- (advances_snd (AuditStream_refines U)) in Hf.
    rewrite (ref_next (AuditStream_refines U)) in Hf. exact Hf.
Qed.

(** ** X7: the sticky error is final *)

(** X7.  Once the sticky error is set, no sequence of [Next] and [Close]
    calls replaces or clears it or touches the event, and every [Next]
    among them returns false. *)
Theorem X7_sticky_error_is_final :
  (forall (U : json.Unmarshaler ErrorEvent) (s : ErrorStream.t) (e : error)
          (ops : list Op),
     ErrorStream.Err s = Some e ->
     allNegative (fst (run (ErrorIterator U) ops s)) /\
     ErrorStream.Err (snd (run (ErrorIterator U) ops s)) = Some e /\
     ErrorStream.Event (snd (run (ErrorIterator U) ops s)) = ErrorStream.Event s) /\
  (forall (U : json.Unmarshaler AuditEvent) (s : AuditStream.t) (e : error)
          (ops : list Op),
     AuditStream.Err s = Some e ->
     allNegative (fst (run (AuditIterator U) ops s)) /\
     AuditStream.Err (snd (run (AuditIterator U) ops s)) = Some e /\
     AuditStream.Event (snd (run (AuditIterator U) ops s)) = AuditStream.Event s).
Proof.
  split; intros U s e ops He.
  - destruct (sticky_frame U ops (absError s) He) as (H1 & H2 & H3).
    rewrite <- (run_fst (ErrorStream_refines U)) in H1.
    rewrite <- (run_snd (ErrorStream_refines U)) in H2, H3.
    repeat split; assumption.
  - destruct (sticky_frame U ops (absAudit s) He) as (H1 & H2 & H3).
    rewrite <- (run_fst (AuditStream_refines U)) in H1.
    rewrite <- (run_snd (AuditStream_refines U)) in H2, H3.
    repeat split; assumption.
Qed.

Lemma X7_witness_close_after_decode_error :
  let U := Example.UnmarshalErrorEvent in
  let s := snd (ErrorStream.Next U
                  (NewErrorStream
                     (io.mkReader
                        (io.mkSource
                           (wire (mkLine (Example.text "not json") false)
                              ++ wire (mkLine (Example.messageLine "late") false))
                           io_EOF)
                        (Some Example.failingCloser)))) in
  let ops := [OpNext; OpClose; OpNext; OpClose] in
  allNegative (fst (run (ErrorIterator U) ops s)) /\
  ErrorStream.Err (snd (run (ErrorIterator U) ops s)) = Some Example.syntaxError /\
  ErrorStream.Event (snd (run (ErrorIterator U) ops s)) = ErrorStream.Event s.
Proof.
  intros U s ops.
  exact (proj1 X7_sticky_error_is_final U s Example.syntaxError ops eq_refl).
Defined.

(** ** X8: closing a closable source, at any time *)

(** X8.  A stream made from a reader that can be closed keeps that
    closer bound.  Whenever [Close] is called on it, after any [Next] and
    [Close] calls, it returns what the closer returns and sets the closed
    flag, also when the closer fails; every [Next] after it returns
    false, and the sticky error and the event stay what they were when
    the stream was closed. *)
Theorem X8_close_closable_any_time :
  (forall (U : json.Unmarshaler ErrorEvent) (r : io.Reader) (c : io.Closer)
          (before after : list Op),
     io.asCloser r = Some c ->
     let s := snd (run (ErrorIterator U) before (NewErrorStream r)) in
     let s1 := snd (ErrorStream.Close s) in
     fst (ErrorStream.Close s) = snd (c (bufio.src (ErrorStream.scanner s))) /\
     ErrorStream.closed s1 = true /\
     allNegative (fst (run (ErrorIterator U) after s1)) /\
     ErrorStream.Err (snd (run (ErrorIterator U) after s1)) = ErrorStream.Err s /\
     ErrorStream.Event (snd (run (ErrorIterator U) after s1)) = ErrorStream.Event s) /\
  (forall (U : json.Unmarshaler AuditEvent) (r : io.Reader) (c : io.Closer)
          (before after : list Op),
     io.asCloser r = Some c ->
     let s := snd (run (AuditIterator U) before (NewAuditStream r)) in
     let s1 := snd (AuditStream.Close s) in
     fst (AuditStream.Close s) = snd (c (bufio.src (AuditStream.scanner s))) /\
     AuditStream.closed s1 = true /\
     allNegative (fst (run (AuditIterator U) after s1)) /\
     AuditStream.Err (snd (run (AuditIterator U) after s1)) = AuditStream.Err s /\
     AuditStream.Event (snd (run (AuditIterator U) after s1)) = AuditStream.Event s).
Proof.
  assert (G : forall (E : Type) (U : json.Unmarshaler E) (t : LineStream.t E) c after,
             LineStream.closer t = Some c ->
             let t1 := snd (LineStream.Close t) in
             fst (LineStream.Close t) = snd (c (bufio.src (LineStream.scanner t))) /\
             LineStream.closed t1 = true /\
             allNegative (fst (run (LineIterator U) after t1)) /\
             LineStream.err (snd (run (LineIterator U) after t1)) = LineStream.err t /\
             LineStream.event (snd (run (LineIterator U) after t1)) = LineStream.event t).
  { intros E U t c after Hc t1. subst t1.
    destruct (Close_bound t Hc) as [H1 H2].
    destruct (Close_frame t) as (H3 & H4 & _).
    destruct (closed_frame U after _ H1) as (H5 & H6 & _).
    pose proof (closed_allNegative U after _ H1) as H7.
    repeat split; try assumption; congruence. }
  split; intros U r c before after Hr s s1.
  - assert (Hc : LineStream.closer (absError s) = Some c).
    { unfold s. rewrite (run_snd (ErrorStream_refines U)), run_closer, absError_New.
      exact Hr. }
    destruct (G _ U (absError s) c after Hc) as (H1 & H2 & H3 & H4 & H5).
    rewrite (ref_close (ErrorStream_refines U)) in H1, H2, H3, H4, H5.
    cbn [fst snd] in H1, H2, H3, H4, H5.
    rewrite <- (run_fst (ErrorStream_refines U)) in H3.
    rewrite <- (run_snd (ErrorStream_refines U)) in H4, H5.
    repeat split; assumption.
  - assert (Hc : LineStream.closer (absAudit s) = Some c).
    { unfold s. rewrite (run_snd (AuditStream_refines U)), run_closer, absAudit_New.
      exact Hr. }
    destruct (G _ U (absAudit s) c after Hc) as (H1 & H2 & H3 & H4 & H5).
    rewrite (ref_close (AuditStream_refines U)) in H1, H2, H3, H4, H5.
    cbn [fst snd] in H1, H2, H3, H4, H5.
    rewrite <- (run_fst (AuditStream_refines U)) in H3.
    rewrite <- (run_snd (AuditStream_refines U)) in H4, H5.
    repeat split; assumption.
Qed.

(** Closing between two events, with a closer that fails. *)
Lemma X8_witness_close_between_events :
  let U := Example.UnmarshalErrorEvent in
  let r := io.mkReader (io.mkSource (render Example.twoEvents []) io_EOF)
                       (Some Example.failingCloser) in
  let s := snd (run (ErrorIterator U) [OpNext] (NewErrorStream r)) in
  let s1 := snd (ErrorStream.Close s) in
  fst (ErrorStream.Close s) =
    snd (Example.failingCloser (bufio.src (ErrorStream.scanner s))) /\
  ErrorStream.closed s1 = true /\
  allNegative (fst (run (ErrorIterator U) [OpNext; OpNext] s1)) /\
  ErrorStream.Err (snd (run (ErrorIterator U) [OpNext; OpNext] s1)) =
    ErrorStream.Err s /\
  ErrorStream.Event (snd (run (ErrorIterator U) [OpNext; OpNext] s1)) =
    ErrorStream.Event s.
Proof.
  intros U r s s1.
  exact (proj1 X8_close_closable_any_time U r Example.failingCloser
               [OpNext] [OpNext; OpNext] eq_refl).
Defined.

(** ** X9: Close does not remember that it was called *)

(** X9.  With a closer bound, every call of [Close] calls the closer
    again, on the source as the calls before left it: [n+1] calls return
    what the closer returns on these successive sources, and they change
    nothing else than the source and the closed flag. *)
Theorem X9_close_calls_closer_each_time :
  (forall (U : json.Unmarshaler ErrorEvent) (s : ErrorStream.t) (c : io.Closer)
          (n : nat),
     ErrorStream.closer s = Some c ->
     let r := bufio.src (ErrorStream.scanner s) in
     closes (ErrorIterator U) (S n) s =
     (fst (closeTimes c (S n) r),
      ErrorStream.mk
        (bufio.mkScanner (snd (closeTimes c (S n) r))
                         (bufio.token (ErrorStream.scanner s))
                         (bufio.err (ErrorStream.scanner s)))
        (ErrorStream.event s) (ErrorStream.err s) (Some c) true)) /\
  (forall (U : json.Unmarshaler AuditEvent) (s : AuditStream.t) (c : io.Closer)
          (n : nat),
     AuditStream.closer s = Some c ->
     let r := bufio.src (AuditStream.scanner s) in
     closes (AuditIterator U) (S n) s =
     (fst (closeTimes c (S n) r),
      AuditStream.mk
        (bufio.mkScanner (snd (closeTimes c (S n) r))
                         (bufio.token (AuditStream.scanner s))
                         (bufio.err (AuditStream.scanner s)))
        (AuditStream.event s) (AuditStream.err s) (Some c) true)).
Proof.
  split; intros U s c n Hc r.
  - apply (closes_back (ErrorStream_refines U)).
    exact (closes_bound U n (absError s) Hc).
  - apply (closes_back (AuditStream_refines U)).
    exact (closes_bound U n (absAudit s) Hc).
Qed.

(** A second [Close] reaches a closer that reports the first one. *)
Lemma X9_witness_closed_twice :
  let U := Example.UnmarshalErrorEvent in
  let s := NewErrorStream
             (io.mkReader (io.mkSource (render Example.twoEvents []) io_EOF)
                          (Some onceCloser)) in
  fst (closes (ErrorIterator U) 2 s) = [None; Some (errorString "already closed")].
Proof.
  intros U s.
  exact (f_equal fst
           (proj1 X9_close_calls_closer_each_time U s onceCloser 1 eq_refl)).
Defined.

(** ** X10: the sticky error is never io.EOF *)

(** X10.  With a decoder that never returns [io_EOF], the sticky error
    of a stream is never [io_EOF], whatever its reader delivers and
    whatever [Next] and [Close] calls are made: the end of the data
    leaves it none. *)
Theorem X10_Err_is_never_EOF :
  (forall (U : json.Unmarshaler ErrorEvent) (r : io.Reader) (ops : list Op),
     (forall line ev, snd (U line ev) <> Some io_EOF) ->
     ErrorStream.Err (snd (run (ErrorIterator U) ops (NewErrorStream r))) <>
     Some io_EOF) /\
  (forall (U : json.Unmarshaler AuditEvent) (r : io.Reader) (ops : list Op),
     (forall line ev, snd (U line ev) <> Some io_EOF) ->
     AuditStream.Err (snd (run (AuditIterator U) ops (NewAuditStream r))) <>
     Some io_EOF).
Proof.
  split; intros U r ops HU.
  - pose proof (@never_EOF _ U ops HU (absError (NewErrorStream r))) as H.
    rewrite <- (run_snd (ErrorStream_refines U)) in H. apply H.
    rewrite absError_New. discriminate.
  - pose proof (@never_EOF _ U ops HU (absAudit (NewAuditStream r))) as H.
    rewrite <- (run_snd (AuditStream_refines U)) in H. apply H.
    rewrite absAudit_New. discriminate.
Qed.

Lemma X10_witness_two_events :
  ErrorStream.Err
    (snd (run (ErrorIterator Example.UnmarshalErrorEvent)
              [OpNext; OpNext; OpNext; OpNext]
              (NewErrorStream
                 (io.mkReader (io.mkSource (render Example.twoEvents []) io_EOF)
                              None)))) <>
  Some io_EOF.
Proof.
  refine (proj1 X10_Err_is_never_EOF Example.UnmarshalErrorEvent _ _ _).
  intros line ev. unfold Example.UnmarshalErrorEvent.
  destruct (Example.between _ _ line); discriminate.
Defined.
